(** * Station extraction from an XMI model: [xml_data_scrapper.py]

    The script locates the UML class named Station in an XMI document,
    lists its owned attributes, finds the instance specifications of the
    class, resolves every slot of every instance to an attribute name and
    a value, and dumps the records as JSON.

    The embedding follows the script function by function.  Parsed
    documents live in a store and tags are references into it, as the
    [Tag] objects handed around by the script are; console output, file
    reads and file writes are recorded in a trace.  The script runs with
    whatever release of the tree library is installed, so the searches
    take the release as a parameter and the properties are proved for
    every release. *)

From Stdlib Require Import String Ascii List Bool Arith NArith Lia Sorted.
Import ListNotations.
Open Scope string_scope.
Open Scope list_scope.
Set Warnings "-register-all".

(** ** Parsed documents *)

(** An element as the XML tree builder leaves it: a tag with its qualified
    name, its attribute dictionary and its contents, or a run of text. *)
Inductive Node : Type :=
| Tag (name : string) (attrs : list (string * string)) (contents : list Node)
| NavigableString (text : string).

Definition node_name (n : Node) : option string :=
  match n with
  | Tag nm _ _ => Some nm
  | NavigableString _ => None
  end.

Definition node_attrs (n : Node) : list (string * string) :=
  match n with
  | Tag _ a _ => a
  | NavigableString _ => []
  end.

Definition node_contents (n : Node) : list Node :=
  match n with
  | Tag _ _ c => c
  | NavigableString _ => []
  end.

(** Dictionary lookup, first binding of the key. *)
Fixpoint assoc {V : Type} (k : string) (d : list (string * V)) : option V :=
  match d with
  | [] => None
  | (k', v) :: d' => if String.eqb k k' then Some v else assoc k d'
  end.

(** A position below a node: the child indices to follow from it. *)
Definition Path := list nat.

Fixpoint subtree (n : Node) (p : Path) : option Node :=
  match p with
  | [] => Some n
  | i :: p' =>
      match nth_error (node_contents n) i with
      | Some c => subtree c p'
      | None => None
      end
  end.

(** [Tag.descendants]: every node below [n], in document order, with the
    path that leads to it. *)
Fixpoint descendants (n : Node) : list (Path * Node) :=
  match n with
  | NavigableString _ => []
  | Tag _ _ cs =>
      (fix walk (i : nat) (cs : list Node) {struct cs} : list (Path * Node) :=
         match cs with
         | [] => []
         | c :: cs' =>
             (([i], c) :: map (fun pn => (i :: fst pn, snd pn)) (descendants c))
               ++ walk (S i) cs'
         end) 0 cs
  end.

(** The same walk over a list of siblings, first sibling at index [i]. *)
Fixpoint walk_children (i : nat) (cs : list Node) : list (Path * Node) :=
  match cs with
  | [] => []
  | c :: cs' =>
      (([i], c) :: map (fun pn => (i :: fst pn, snd pn)) (descendants c))
        ++ walk_children (S i) cs'
  end.

(** Document order on paths: an ancestor comes before its descendants and
    an earlier sibling's subtree before a later sibling's. *)
Fixpoint path_ltb (p q : Path) : bool :=
  match p, q with
  | [], [] => false
  | [], _ :: _ => true
  | _ :: _, [] => false
  | i :: p', j :: q' =>
      if Nat.ltb i j then true else if Nat.eqb i j then path_ltb p' q' else false
  end.

(** ** Python values and the [json] module *)

(** The values the script hands to [json.dump], and the values a JSON
    parse gives back: [None], booleans, strings, lists, and dictionaries
    with string keys in insertion order.  Strings are the UTF-8 bytes of
    the text. *)
Inductive pyval : Type :=
| PNone
| PBool (b : bool)
| PStr (s : string)
| PList (l : list pyval)
| PDict (d : list (string * pyval)).

Module Json.

Definition dquote : ascii := "034"%char.
Definition backslash : ascii := "092"%char.
Definition nl : ascii := "010"%char.

Definition hexdigit (n : nat) : ascii :=
  match n with
  | 0 => "0" | 1 => "1" | 2 => "2" | 3 => "3" | 4 => "4" | 5 => "5"
  | 6 => "6" | 7 => "7" | 8 => "8" | 9 => "9" | 10 => "a" | 11 => "b"
  | 12 => "c" | 13 => "d" | 14 => "e" | _ => "f"
  end%char.

(** [ESCAPE_DCT]: what [ESCAPE.sub] puts in place of one character. *)
Definition escape_char (c : ascii) : string :=
  let n := nat_of_ascii c in
  if Ascii.eqb c backslash then String backslash (String backslash EmptyString)
  else if Ascii.eqb c dquote then String backslash (String dquote EmptyString)
  else if Nat.eqb n 8 then String backslash "b"
  else if Nat.eqb n 12 then String backslash "f"
  else if Nat.eqb n 10 then String backslash "n"
  else if Nat.eqb n 13 then String backslash "r"
  else if Nat.eqb n 9 then String backslash "t"
  else if Nat.ltb n 32 then
    String backslash
      (String "u" (String "0" (String "0"
         (String (hexdigit (n / 16)) (String (hexdigit (n mod 16)) EmptyString)))))
  else String c EmptyString.

Fixpoint escape (s : string) : string :=
  match s with
  | EmptyString => EmptyString
  | String c s' => (escape_char c ++ escape s')%string
  end.

(** [py_encode_basestring], the encoder chosen by [ensure_ascii=False]. *)
Definition encode_basestring (s : string) : string :=
  String dquote (escape s ++ String dquote EmptyString)%string.

Fixpoint spaces (n : nat) : string :=
  match n with
  | 0 => EmptyString
  | S n' => String " " (spaces n')
  end.

(** ['\n' + _indent * _current_indent_level] with [indent=4]. *)
Definition newline_indent (level : nat) : string :=
  String nl (spaces (4 * level)).

(** [_iterencode], [_iterencode_list] and [_iterencode_dict], the chunks
    joined. *)
Fixpoint iterencode (o : pyval) (level : nat) : string :=
  match o with
  | PNone => "null"
  | PBool true => "true"
  | PBool false => "false"
  | PStr s => encode_basestring s
  | PList [] => "[]"
  | PList (x :: xs) =>
      ("[" ++ newline_indent (S level) ++ iterencode x (S level)
       ++ (fix items (l : list pyval) : string :=
             match l with
             | [] => EmptyString
             | y :: l' =>
                 "," ++ newline_indent (S level) ++ iterencode y (S level)
                 ++ items l'
             end) xs
       ++ newline_indent level ++ "]")%string
  | PDict [] => "{}"
  | PDict ((k, v) :: kvs) =>
      ("{" ++ newline_indent (S level)
       ++ encode_basestring k ++ ": " ++ iterencode v (S level)
       ++ (fix items (l : list (string * pyval)) : string :=
             match l with
             | [] => EmptyString
             | (k', v') :: l' =>
                 "," ++ newline_indent (S level)
                 ++ encode_basestring k' ++ ": " ++ iterencode v' (S level)
                 ++ items l'
             end) kvs
       ++ newline_indent level ++ "}")%string
  end.

(** [json.dumps(obj, ensure_ascii=False, indent=4)] *)
Definition dumps (o : pyval) : string := iterencode o 0.

Definition is_ws (c : ascii) : bool :=
  let n := nat_of_ascii c in
  Nat.eqb n 32 || Nat.eqb n 9 || Nat.eqb n 10 || Nat.eqb n 13.

Fixpoint skip_ws (s : string) : string :=
  match s with
  | EmptyString => EmptyString
  | String c s' => if is_ws c then skip_ws s' else s
  end.

Definition hexval (c : ascii) : option N :=
  let n := N_of_ascii c in
  if (48 <=? n)%N && (n <=? 57)%N then Some (n - 48)%N
  else if (97 <=? n)%N && (n <=? 102)%N then Some (n - 87)%N
  else if (65 <=? n)%N && (n <=? 70)%N then Some (n - 55)%N
  else None.

(** [_decode_uXXXX]: the code unit written by four hexadecimal digits. *)
Definition decode_uXXXX (a b c d : ascii) : option N :=
  match hexval a, hexval b, hexval c, hexval d with
  | Some x, Some y, Some z, Some t =>
      Some (((x * 16 + y) * 16 + z) * 16 + t)%N
  | _, _, _, _ => None
  end.

(** [chr(uni)] as UTF-8 bytes. *)
Definition chr (uni : N) : string :=
  if (uni <? 128)%N then String (ascii_of_N uni) EmptyString
  else if (uni <? 2048)%N then
    String (ascii_of_N (192 + uni / 64))
      (String (ascii_of_N (128 + uni mod 64)) EmptyString)
  else if (uni <? 65536)%N then
    String (ascii_of_N (224 + uni / 4096))
      (String (ascii_of_N (128 + (uni / 64) mod 64))
         (String (ascii_of_N (128 + uni mod 64)) EmptyString))
  else
    String (ascii_of_N (240 + uni / 262144))
      (String (ascii_of_N (128 + (uni / 4096) mod 64))
         (String (ascii_of_N (128 + (uni / 64) mod 64))
            (String (ascii_of_N (128 + uni mod 64)) EmptyString))).

(** [BACKSLASH]: the one-letter escapes. *)
Definition unescape (e : ascii) : option ascii :=
  if Ascii.eqb e dquote then Some dquote
  else if Ascii.eqb e backslash then Some backslash
  else if Ascii.eqb e "/" then Some "/"%char
  else if Ascii.eqb e "b" then Some "008"%char
  else if Ascii.eqb e "f" then Some "012"%char
  else if Ascii.eqb e "n" then Some "010"%char
  else if Ascii.eqb e "r" then Some "013"%char
  else if Ascii.eqb e "t" then Some "009"%char
  else None.

Definition prepend (chunk : string) (r : option (string * string))
  : option (string * string) :=
  match r with
  | Some (s, rest) => Some ((chunk ++ s)%string, rest)
  | None => None
  end.

(** [scanstring(s, end, strict=True)], entered after the opening quote:
    the decoded string and what follows the closing quote. *)
Fixpoint scanstring (s : string) : option (string * string) :=
  match s with
  | EmptyString => None
  | String c r =>
      if Ascii.eqb c dquote then Some (EmptyString, r)
      else if Ascii.eqb c backslash then
        match r with
        | EmptyString => None
        | String e r1 =>
            if Ascii.eqb e "u" then
              match r1 with
              | String h1 (String h2 (String h3 (String h4 r2))) =>
                  match decode_uXXXX h1 h2 h3 h4 with
                  | None => None
                  | Some uni =>
                      if (55296 <=? uni)%N && (uni <=? 56319)%N then
                        match r2 with
                        | String b (String u (String l1 (String l2
                            (String l3 (String l4 r3))))) =>
                            if Ascii.eqb b backslash && Ascii.eqb u "u" then
                              match decode_uXXXX l1 l2 l3 l4 with
                              | None => None
                              | Some uni2 =>
                                  if (56320 <=? uni2)%N && (uni2 <=? 57343)%N
                                  then
                                    prepend
                                      (chr (65536 + ((uni - 55296) * 1024
                                                     + (uni2 - 56320)))%N)
                                      (scanstring r3)
                                  else prepend (chr uni) (scanstring r2)
                              end
                            else prepend (chr uni) (scanstring r2)
                        | _ => prepend (chr uni) (scanstring r2)
                        end
                      else prepend (chr uni) (scanstring r2)
                  end
              | _ => None
              end
            else
              match unescape e with
              | Some ch => prepend (String ch EmptyString) (scanstring r1)
              | None => None
              end
        end
      else if Nat.ltb (nat_of_ascii c) 32 then None
      else prepend (String c EmptyString) (scanstring r)
  end.

(** [dict(pairs)]: a later binding of a key replaces the value of the
    earlier one, in its place. *)
Fixpoint dict_set (d : list (string * pyval)) (k : string) (v : pyval)
  : list (string * pyval) :=
  match d with
  | [] => [(k, v)]
  | (k', v') :: d' =>
      if String.eqb k k' then (k', v) :: d' else (k', v') :: dict_set d' k v
  end.

Definition dict_of_pairs (pairs : list (string * pyval)) : list (string * pyval) :=
  fold_left (fun d kv => dict_set d (fst kv) (snd kv)) pairs [].

(** [scan_once] with [JSONArray] and [JSONObject].  [fuel] bounds the
    nesting and the number of items; [loads] supplies the length of the
    text.  A result of [None] stands for [JSONDecodeError].  Numbers are
    not part of the values modelled here and are rejected. *)
Fixpoint scan_once (fuel : nat) (s : string) : option (pyval * string) :=
  match fuel with
  | 0 => None
  | S f =>
      match s with
      | EmptyString => None
      | String c s' =>
          if Ascii.eqb c dquote then
            match scanstring s' with
            | Some (str, r) => Some (PStr str, r)
            | None => None
            end
          else if Ascii.eqb c "{" then
            match skip_ws s' with
            | String c2 r2 =>
                if Ascii.eqb c2 "}" then Some (PDict [], r2)
                else if Ascii.eqb c2 dquote then
                  match JSONObject f r2 with
                  | Some (pairs, r) => Some (PDict (dict_of_pairs pairs), r)
                  | None => None
                  end
                else None
            | EmptyString => None
            end
          else if Ascii.eqb c "[" then
            match skip_ws s' with
            | String c2 r2 =>
                if Ascii.eqb c2 "]" then Some (PList [], r2)
                else
                  match JSONArray f (String c2 r2) with
                  | Some (values, r) => Some (PList values, r)
                  | None => None
                  end
            | EmptyString => None
            end
          else if String.prefix "null" s then Some (PNone, substring 4 (String.length s - 4) s)
          else if String.prefix "true" s then Some (PBool true, substring 4 (String.length s - 4) s)
          else if String.prefix "false" s then Some (PBool false, substring 5 (String.length s - 5) s)
          else None
      end
  end
with JSONArray (fuel : nat) (s : string) : option (list pyval * string) :=
  match fuel with
  | 0 => None
  | S f =>
      match scan_once f s with
      | None => None
      | Some (value, r) =>
          match skip_ws r with
          | String c r' =>
              if Ascii.eqb c "]" then Some ([value], r')
              else if Ascii.eqb c "," then
                match JSONArray f (skip_ws r') with
                | Some (values, r'') => Some (value :: values, r'')
                | None => None
                end
              else None
          | EmptyString => None
          end
      end
  end
with JSONObject (fuel : nat) (s : string)
  : option (list (string * pyval) * string) :=
  match fuel with
  | 0 => None
  | S f =>
      match scanstring s with
      | None => None
      | Some (key, r) =>
          match skip_ws r with
          | String c r1 =>
              if Ascii.eqb c ":" then
                match scan_once f (skip_ws r1) with
                | None => None
                | Some (value, r2) =>
                    match skip_ws r2 with
                    | String c2 r3 =>
                        if Ascii.eqb c2 "}" then Some ([(key, value)], r3)
                        else if Ascii.eqb c2 "," then
                          match skip_ws r3 with
                          | String c3 r4 =>
                              if Ascii.eqb c3 dquote then
                                match JSONObject f r4 with
                                | Some (pairs, r5) =>
                                    Some ((key, value) :: pairs, r5)
                                | None => None
                                end
                              else None
                          | EmptyString => None
                          end
                        else None
                    | EmptyString => None
                    end
                end
              else None
          | EmptyString => None
          end
      end
  end.

(** [json.loads(text)]: one value, with nothing but white space around
    it. *)
Definition loads (text : string) : option pyval :=
  match scan_once (S (String.length text)) (skip_ws text) with
  | Some (v, r) =>
      match skip_ws r with
      | EmptyString => Some v
      | String _ _ => None
      end
  | None => None
  end.

(** The items of a list after the first, and the pairs of a dictionary
    after the first, as [iterencode] writes them at [level]. *)
Fixpoint encode_items (level : nat) (l : list pyval) : string :=
  match l with
  | [] => EmptyString
  | y :: l' =>
      ("," ++ newline_indent (S level) ++ iterencode y (S level)
       ++ encode_items level l')%string
  end.

Fixpoint encode_pairs (level : nat) (l : list (string * pyval)) : string :=
  match l with
  | [] => EmptyString
  | (k, v) :: l' =>
      ("," ++ newline_indent (S level)
       ++ encode_basestring k ++ ": " ++ iterencode v (S level)
       ++ encode_pairs level l')%string
  end.

(** The number of values, items and pairs in a value: fuel enough to scan
    its text. *)
Fixpoint size (v : pyval) : nat :=
  match v with
  | PList l =>
      S ((fix sum (l : list pyval) : nat :=
            match l with
            | [] => 0
            | x :: l' => S (size x + sum l')
            end) l)
  | PDict d =>
      S ((fix sum (d : list (string * pyval)) : nat :=
            match d with
            | [] => 0
            | (_, x) :: d' => S (size x + sum d')
            end) d)
  | _ => 1
  end.

(** A value all of whose dictionaries have distinct keys, as every Python
    dictionary has. *)
Fixpoint distinct_keys (v : pyval) : Prop :=
  match v with
  | PList l =>
      (fix all (l : list pyval) : Prop :=
         match l with
         | [] => True
         | x :: l' => distinct_keys x /\ all l'
         end) l
  | PDict d =>
      NoDup (map fst d)
      /\ (fix all (d : list (string * pyval)) : Prop :=
            match d with
            | [] => True
            | (_, x) :: d' => distinct_keys x /\ all d'
            end) d
  | _ => True
  end.

End Json.

(** ** The world the script runs in *)

(** A reference to a tag: the parsed document it belongs to and its
    position in it. *)
Record TagRef : Type := mkRef { ref_doc : nat; ref_path : Path }.

Inductive Event : Type :=
| EvRead (path : string)
| EvPrint (line : string)
| EvWrite (path : string) (content : string).

Record World : Type := mkWorld {
  files : list (string * string);
  docs : list Node;
  trace : list Event
}.

Inductive Exn : Type :=
| KeyError (key : string)
| FileNotFoundError (path : string)
| ParserRejectedMarkup
| StaleReference.

Definition M (A : Type) : Type := World -> (Exn + A) * World.

Definition ret {A : Type} (a : A) : M A := fun w => (inr a, w).

Definition raise {A : Type} (e : Exn) : M A := fun w => (inl e, w).

Definition bind {A B : Type} (m : M A) (k : A -> M B) : M B :=
  fun w =>
    match m w with
    | (inl e, w') => (inl e, w')
    | (inr a, w') => k a w'
    end.

Declare Scope py_scope.
Delimit Scope py_scope with py.
Notation "x <- m ;; k" := (bind m (fun x => k))
  (at level 100, m at next level, right associativity) : py_scope.
Notation "m ;;; k" := (bind m (fun _ => k))
  (at level 100, right associativity) : py_scope.
Open Scope py_scope.

(** A [for] loop that updates a local variable [acc] on every element. *)
Fixpoint for_each {A S : Type} (l : list A) (acc : S) (body : S -> A -> M S) : M S :=
  match l with
  | [] => ret acc
  | x :: l' => acc' <- body acc x ;; for_each l' acc' body
  end.

Definition deref (w : World) (r : TagRef) : option Node :=
  match nth_error (docs w) (ref_doc r) with
  | Some d => subtree d (ref_path r)
  | None => None
  end.

Definition get_node (r : TagRef) : M Node :=
  fun w =>
    match deref w r with
    | Some n => (inr n, w)
    | None => (inl StaleReference, w)
    end.

Definition below (r : TagRef) (p : Path) : TagRef :=
  mkRef (ref_doc r) (ref_path r ++ p).

(** ** Filters of a search in the tree library *)

(** What an attribute is compared with in a search: one string, or a list
    of acceptable strings. *)
Inductive Match : Type :=
| MStr (s : string)
| MList (l : list string).

(** [not match_against]: the filter is an empty string or an empty list. *)
Definition is_falsy (m : Match) : bool :=
  match m with
  | MStr EmptyString => true
  | MList [] => true
  | _ => false
  end.

(** The script pins no release of the tree library, and the releases
    differ on one point that the script can reach.  Up to 4.12 the value
    of a missing attribute, [None], is matched with [not match_against]: a
    filter that is an empty string (or an empty list) is passed by a tag
    that lacks the filtered attribute.  From 4.13 on a filter is only
    passed by an attribute that is present. *)
Inductive Release : Type :=
| Legacy
| Current.

Section Library.

Variable release : Release.

(** Whether the value [v] of an attribute of a tag, [None] when the tag
    lacks the attribute, passes the filter [m].  A present value is
    compared with the string, or with each string of the list. *)
Definition matches_value (v : option string) (m : Match) : bool :=
  match v with
  | Some s =>
      match m with
      | MStr t => String.eqb s t
      | MList l => existsb (String.eqb s) l
      end
  | None =>
      match release with
      | Legacy => is_falsy m
      | Current => false
      end
  end.

(** A node passes a search for [name] with attribute filter [flt] when it is
    a tag of that name and the value of each filtered attribute passes its
    filter. *)
Definition matches_tag (name : string) (flt : list (string * Match)) (n : Node) : bool :=
  match n with
  | Tag nm a _ =>
      String.eqb nm name
      && forallb (fun km => matches_value (assoc (fst km) a) (snd km)) flt
  | NavigableString _ => false
  end.

(** The descendants of [n] that pass a search, in document order. *)
Definition search (name : string) (flt : list (string * Match)) (n : Node)
  : list (Path * Node) :=
  filter (fun pn => matches_tag name flt (snd pn)) (descendants n).

(** [tag.find_all(name, attrs)] *)
Definition find_all (r : TagRef) (name : string) (flt : list (string * Match))
  : M (list TagRef) :=
  n <- get_node r ;;
  ret (map (fun pn => below r (fst pn)) (search name flt n)).

(** [tag.find(name, attrs)]: the first result of [find_all], or [None]. *)
Definition find (r : TagRef) (name : string) (flt : list (string * Match))
  : M (option TagRef) :=
  l <- find_all r name flt ;;
  ret (hd_error l).

(** [tag[key]] *)
Definition getitem (r : TagRef) (key : string) : M string :=
  n <- get_node r ;;
  match assoc key (node_attrs n) with
  | Some v => ret v
  | None => raise (KeyError key)
  end.

Definition print (line : string) : M unit :=
  fun w => (inr tt, mkWorld (files w) (docs w) (trace w ++ [EvPrint line])).

(** [with open(path, 'r', encoding='utf-8') as file: content = file.read()] *)
Definition read_text (path : string) : M string :=
  fun w =>
    match assoc path (files w) with
    | Some c => (inr c, mkWorld (files w) (docs w) (trace w ++ [EvRead path]))
    | None => (inl (FileNotFoundError path), w)
    end.

(** [with open(path, 'w', encoding='utf-8') as f: f.write(content)], on a
    path that can be written. *)
Definition write_text (path content : string) : M unit :=
  fun w =>
    (inr tt, mkWorld ((path, content) :: files w) (docs w)
               (trace w ++ [EvWrite path content])).

(** ** The script *)

(** The line feed written by [\n] in the script's messages. *)
Definition LF : string := String "010"%char EmptyString.

(** A list comprehension whose element expression may raise. *)
Fixpoint comprehension {A B : Type} (f : A -> M B) (l : list A) : M (list B) :=
  match l with
  | [] => ret []
  | x :: l' => y <- f x ;; ys <- comprehension f l' ;; ret (y :: ys)
  end.

(** The dictionaries built by [print_station_details]. *)
Record AttributeEntry : Type := mkEntry {
  attribute_name : string;
  attribute_value : string
}.

Record StationData : Type := mkStation {
  station_name : string;
  attributes : list AttributeEntry
}.

(** The same dictionaries as Python values, keys in insertion order. *)
Definition entry_py (e : AttributeEntry) : pyval :=
  PDict [("attribute_name", PStr (attribute_name e));
         ("attribute_value", PStr (attribute_value e))].

Definition station_py (s : StationData) : pyval :=
  PDict [("station_name", PStr (station_name s));
         ("attributes", PList (map entry_py (attributes s)))].

Definition details_py (station_details : list StationData) : pyval :=
  PList (map station_py station_details).

(** Truth value of a string in a condition. *)
Definition truthy (s : string) : bool :=
  match s with
  | EmptyString => false
  | String _ _ => true
  end.

Definition get_station_attributes (station_element : TagRef) : M (list string) :=
  attributes <- find_all station_element "ownedAttribute" [] ;;
  comprehension (fun attribute => getitem attribute "xmi:id") attributes.

Definition get_station_instances (soup : TagRef) (station_classifier_id : string)
  : M (list TagRef) :=
  find_all soup "packagedElement"
    [("xmi:type", MStr "uml:InstanceSpecification");
     ("classifier", MStr station_classifier_id)].

(** The body of the loop over the slots of one instance (lines 99-115);
    [attributes] is the list held under [station_data['attributes']]. *)
Definition resolve_slot (soup : TagRef) (attributes : list AttributeEntry)
  (slot : TagRef) : M (list AttributeEntry) :=
  defining_feature_id <- getitem slot "definingFeature" ;;
  attribute <- find soup "ownedAttribute" [("xmi:id", MStr defining_feature_id)] ;;
  match attribute with
  | Some attribute =>
      attribute_name <- getitem attribute "name" ;;
      value <- find slot "value" [] ;;
      attribute_value <-
        match value with
        | Some value => getitem value "symbol"
        | None => ret "Aucune valeur"
        end ;;
      ret (attributes ++ [mkEntry attribute_name attribute_value])
  | None => ret attributes
  end.

Definition print_attr (_ : unit) (attr : AttributeEntry) : M unit :=
  print ("  - " ++ attribute_name attr ++ " : " ++ attribute_value attr)%string.

(** The body of the loop over the instances (lines 92-120). *)
Definition build_station (soup : TagRef) (station_details : list StationData)
  (station_instance : TagRef) : M (list StationData) :=
  station_name <- getitem station_instance "name" ;;
  slots <- find_all station_instance "slot" [] ;;
  attributes <- for_each slots [] (resolve_slot soup) ;;
  let station_data := mkStation station_name attributes in
  let station_details := station_details ++ [station_data] in
  print (LF ++ "Station: " ++ station_name)%string ;;;
  for_each attributes tt print_attr ;;;
  ret station_details.

Definition print_station_details (station_instances : list TagRef) (soup : TagRef)
  : M (list StationData) :=
  for_each station_instances [] (build_station soup).

Definition msg_no_class : string :=
  "Aucune classe 'station' trouvée dans le fichier.".

Definition msg_no_attribute : string :=
  "Aucun attribut trouvé pour la classe 'station'.".

Definition msg_no_instance : string :=
  "Aucune instance de la classe 'Station' trouvée dans le fichier.".

Definition msg_class_id (station_id : string) : string :=
  ("L'ID de la classe 'station' est:" ++ LF ++ "  " ++ station_id ++ LF)%string.

Definition msg_attribute_ids : string :=
  "  ID des attributs de la classe 'station' :".

Definition msg_attribute_id (attr_id : string) : string :=
  ("    " ++ attr_id)%string.

Definition msg_saved (output_file : string) : string :=
  ("Détails de la station enregistrés dans " ++ output_file)%string.

Definition save_station_details_to_json (station_details : list StationData)
  (output_file : string) : M unit :=
  write_text output_file (Json.dumps (details_py station_details)) ;;;
  print (msg_saved output_file).

Section Script.

(** The XML tree builder behind [BeautifulSoup(content, 'xml')]: the root
    object of the parsed text, or a rejection. *)
Variable xml_parser : string -> option Node.

Definition BeautifulSoup (content : string) : M TagRef :=
  fun w =>
    match xml_parser content with
    | Some d =>
        (inr (mkRef (length (docs w)) []),
         mkWorld (files w) (docs w ++ [d]) (trace w))
    | None => (inl ParserRejectedMarkup, w)
    end.

(** The pair [(station['xmi:id'], station)] is [Some (id, station)] and
    the pair [(None, None)] is [None]. *)
Definition get_station_id (file_path : string) : M (option (string * TagRef)) :=
  content <- read_text file_path ;;
  soup <- BeautifulSoup content ;;
  station <- find soup "packagedElement"
               [("xmi:type", MStr "uml:Class"); ("name", MList ["Station"])] ;;
  match station with
  | Some station =>
      station_id <- getitem station "xmi:id" ;;
      ret (Some (station_id, station))
  | None => ret None
  end.

Definition file_path : string := "UPS1.xmi".
Definition output_file : string := "station_details.json".

Definition main : M unit :=
  located <- get_station_id file_path ;;
  match located with
  | None => print msg_no_class
  | Some (station_id, station_element) =>
      if negb (truthy station_id) then print msg_no_class
      else
        print (msg_class_id station_id) ;;;
        attribute_ids <- get_station_attributes station_element ;;
        match attribute_ids with
        | [] => print msg_no_attribute
        | _ :: _ =>
            print msg_attribute_ids ;;;
            for_each attribute_ids tt
              (fun _ attr_id => print (msg_attribute_id attr_id)) ;;;
            content <- read_text file_path ;;
            soup <- BeautifulSoup content ;;
            station_instances <- get_station_instances soup station_id ;;
            match station_instances with
            | [] => print msg_no_instance
            | _ :: _ =>
                station_details <- print_station_details station_instances soup ;;
                save_station_details_to_json station_details output_file
            end
        end
  end.

End Script.

(** ** Vocabulary of the properties, and example documents *)

Definition doc_before (p q : Path) : Prop := path_ltb p q = true.

(** Document order on the tags of one parsed document. *)
Definition ref_before (r1 r2 : TagRef) : Prop :=
  ref_doc r1 = ref_doc r2 /\ doc_before (ref_path r1) (ref_path r2).

Definition entry_before (x y : Path * Node) : Prop :=
  doc_before (fst x) (fst y).

(** A packaged element that declares the class named Station. *)
Definition is_station_class (n : Node) : Prop :=
  node_name n = Some "packagedElement"
  /\ assoc "xmi:type" (node_attrs n) = Some "uml:Class"
  /\ assoc "name" (node_attrs n) = Some "Station".

(** A packaged element that is an instance specification classified by
    [I]. *)
Definition is_instance_of (I : string) (n : Node) : Prop :=
  node_name n = Some "packagedElement"
  /\ assoc "xmi:type" (node_attrs n) = Some "uml:InstanceSpecification"
  /\ assoc "classifier" (node_attrs n) = Some I.

(** The attribute [key] of [n] passes a search filtered by the string
    [s]: it is present with the value [s] or, with the releases up to 4.12
    and the empty string, it is missing. *)
Definition passes (key s : string) (n : Node) : Prop :=
  assoc key (node_attrs n) = Some s
  \/ (release = Legacy /\ s = EmptyString /\ assoc key (node_attrs n) = None).

(** A packaged element that is an instance specification and whose
    classifier passes a search for [I]. *)
Definition classified_by (I : string) (n : Node) : Prop :=
  node_name n = Some "packagedElement"
  /\ assoc "xmi:type" (node_attrs n) = Some "uml:InstanceSpecification"
  /\ passes "classifier" I n.

(** [n], at path [p], is the first node below [d], in document order, that
    satisfies [P]. *)
Definition first_in_document (P : Node -> Prop) (d : Node) (p : Path) (n : Node)
  : Prop :=
  p <> [] /\ subtree d p = Some n /\ P n
  /\ forall q m, q <> [] -> subtree d q = Some m -> P m ->
                 q = p \/ doc_before p q.

(** A computation that leaves the world as it found it. *)
Definition quiet {A : Type} (m : M A) : Prop := forall w, snd (m w) = w.

(** The world after some lines were printed. *)
Definition say (w : World) (lines : list string) : World :=
  mkWorld (files w) (docs w) (trace w ++ map EvPrint lines).

(** A computation that only prints. *)
Definition talks {A : Type} (m : M A) : Prop :=
  forall w, exists lines, snd (m w) = say w lines.

(** What [resolve_slot] computes, as a function of the document [d], of
    the slot's node [sn] and of the attribute list so far. *)
Definition slot_outcome (d sn : Node) (attributes : list AttributeEntry)
  : Exn + list AttributeEntry :=
  match assoc "definingFeature" (node_attrs sn) with
  | None => inl (KeyError "definingFeature")
  | Some f =>
      match hd_error (search "ownedAttribute" [("xmi:id", MStr f)] d) with
      | None => inr attributes
      | Some (_, a) =>
          match assoc "name" (node_attrs a) with
          | None => inl (KeyError "name")
          | Some nm =>
              match hd_error (search "value" [] sn) with
              | None => inr (attributes ++ [mkEntry nm "Aucune valeur"])
              | Some (_, v) =>
                  match assoc "symbol" (node_attrs v) with
                  | None => inl (KeyError "symbol")
                  | Some s => inr (attributes ++ [mkEntry nm s])
                  end
              end
          end
      end
  end.

(** A tag named ownedAttribute whose xmi:id is [f]. *)
Definition is_attribute_with_id (f : string) (n : Node) : Prop :=
  node_name n = Some "ownedAttribute"
  /\ assoc "xmi:id" (node_attrs n) = Some f.

(** A tag named ownedAttribute whose xmi:id passes a search for [f]: what
    the lookup of the defining feature [f] selects. *)
Definition looked_up (f : string) (n : Node) : Prop :=
  node_name n = Some "ownedAttribute" /\ passes "xmi:id" f n.

(** The loops of [print_station_details] as functions of the document:
    the outcome over the slot nodes of one instance, over one instance
    node, and over the instance nodes. *)
Fixpoint slots_outcome (d : Node) (slots : list Node)
  (attributes : list AttributeEntry) : Exn + list AttributeEntry :=
  match slots with
  | [] => inr attributes
  | sn :: slots' =>
      match slot_outcome d sn attributes with
      | inl e => inl e
      | inr attributes' => slots_outcome d slots' attributes'
      end
  end.

Definition station_outcome (d n : Node) (station_details : list StationData)
  : Exn + list StationData :=
  match assoc "name" (node_attrs n) with
  | None => inl (KeyError "name")
  | Some nm =>
      match slots_outcome d (map snd (search "slot" [] n)) [] with
      | inl e => inl e
      | inr attributes => inr (station_details ++ [mkStation nm attributes])
      end
  end.

Fixpoint stations_outcome (d : Node) (instances : list Node)
  (station_details : list StationData) : Exn + list StationData :=
  match instances with
  | [] => inr station_details
  | n :: instances' =>
      match station_outcome d n station_details with
      | inl e => inl e
      | inr station_details' => stations_outcome d instances' station_details'
      end
  end.

(** A slot of the instance node [n]: a tag named slot below it. *)
Definition slot_of (n sn : Node) : Prop :=
  exists p, p <> [] /\ subtree n p = Some sn /\ node_name sn = Some "slot".

Definition is_value (n : Node) : Prop := node_name n = Some "value".

(** The three unguarded reads of the record builder that can fail on the
    instance node [n] in document [d]. *)
Definition lacks_name (n : Node) : Prop := assoc "name" (node_attrs n) = None.

Definition slot_lacks_feature (n : Node) : Prop :=
  exists sn, slot_of n sn /\ assoc "definingFeature" (node_attrs sn) = None.

Definition resolved_value_lacks_symbol (d n : Node) : Prop :=
  exists sn f p a q v,
    slot_of n sn
    /\ assoc "definingFeature" (node_attrs sn) = Some f
    /\ first_in_document (is_attribute_with_id f) d p a
    /\ first_in_document is_value sn q v
    /\ assoc "symbol" (node_attrs v) = None.

(** Lookup of a key in a Python dictionary value. *)
Definition py_get (key : string) (v : pyval) : option pyval :=
  match v with
  | PDict d => assoc key d
  | _ => None
  end.

(** What the comprehension of [get_station_attributes] computes over the
    ownedAttribute nodes. *)
Fixpoint ids_outcome (l : list Node) : Exn + list string :=
  match l with
  | [] => inr []
  | m :: l' =>
      match assoc "xmi:id" (node_attrs m) with
      | None => inl (KeyError "xmi:id")
      | Some v =>
          match ids_outcome l' with
          | inl e => inl e
          | inr ids => inr (v :: ids)
          end
      end
  end.

(** The world after [path] was read and its text parsed into [d]. *)
Definition after_read (w : World) (path : string) (d : Node) : World :=
  mkWorld (files w) (docs w ++ [d]) (trace w ++ [EvRead path]).

(** The paths read, in order, among some events. *)
Fixpoint reads (evs : list Event) : list string :=
  match evs with
  | [] => []
  | EvRead p :: evs' => p :: reads evs'
  | _ :: evs' => reads evs'
  end.

(** A run that ended normally in a world with the files of [w], the
    documents [ds] added to its store and the events [evs] added to its
    trace. *)
Definition stops_with (r : (Exn + unit) * World) (w : World)
  (ds : list Node) (evs : list Event) : Prop :=
  fst r = inr tt
  /\ files (snd r) = files w
  /\ docs (snd r) = docs w ++ ds
  /\ trace (snd r) = trace w ++ evs.

(** Whether the pipeline gets as far as instance resolution on document
    [d]: the class is found with a non-empty identifier and a non-empty
    list of attribute identifiers. *)
Definition reaches_instances (d : Node) : bool :=
  match hd_error (search "packagedElement"
                    [("xmi:type", MStr "uml:Class");
                     ("name", MList ["Station"])] d) with
  | Some (_, n) =>
      match assoc "xmi:id" (node_attrs n) with
      | Some id =>
          truthy id
          && match ids_outcome (map snd (search "ownedAttribute" [] n)) with
             | inr (_ :: _) => true
             | _ => false
             end
      | None => false
      end
  | None => false
  end.

(** The layout of the output file: one record per object at four spaces,
    its two keys at eight, one attribute per object at twelve, its two
    keys at sixteen. *)
Definition pretty_entry (e : AttributeEntry) : string :=
  ("            {" ++ LF
   ++ "                " ++ Json.encode_basestring "attribute_name" ++ ": "
   ++ Json.encode_basestring (attribute_name e) ++ "," ++ LF
   ++ "                " ++ Json.encode_basestring "attribute_value" ++ ": "
   ++ Json.encode_basestring (attribute_value e) ++ LF
   ++ "            }")%string.

Definition pretty_station (s : StationData) : string :=
  ("    {" ++ LF
   ++ "        " ++ Json.encode_basestring "station_name" ++ ": "
   ++ Json.encode_basestring (station_name s) ++ "," ++ LF
   ++ "        " ++ Json.encode_basestring "attributes" ++ ": "
   ++ match attributes s with
      | [] => "[]"
      | _ :: _ =>
          "[" ++ LF
          ++ String.concat ("," ++ LF) (map pretty_entry (attributes s)) ++ LF
          ++ "        ]"
      end
   ++ LF ++ "    }")%string.

Definition pretty_details (station_details : list StationData) : string :=
  match station_details with
  | [] => "[]"
  | _ :: _ =>
      ("[" ++ LF
       ++ String.concat ("," ++ LF) (map pretty_station station_details) ++ LF
       ++ "]")%string
  end.

Definition attribute_A1 : Node :=
  Tag "ownedAttribute" [("xmi:id", "A1"); ("name", "Name")] [].

Definition attribute_A2 : Node :=
  Tag "ownedAttribute" [("xmi:id", "A2"); ("name", "Zone")] [].

Definition station_class : Node :=
  Tag "packagedElement"
    [("xmi:type", "uml:Class"); ("xmi:id", "C1"); ("name", "Station")]
    [attribute_A1; attribute_A2].

Definition slot_gate : Node :=
  Tag "slot" [("definingFeature", "A1")]
    [Tag "value" [("symbol", "North Gate")] []].

(** A slot that refers to no owned attribute; its value has no symbol. *)
Definition slot_dangling : Node :=
  Tag "slot" [("definingFeature", "A9")] [Tag "value" [] []].

Definition slot_empty : Node := Tag "slot" [("definingFeature", "A2")] [].

Definition instance_UPS1 : Node :=
  Tag "packagedElement"
    [("xmi:type", "uml:InstanceSpecification"); ("xmi:id", "I1");
     ("name", "UPS1"); ("classifier", "C1")]
    [slot_gate; slot_dangling; slot_empty].

Definition instance_other : Node :=
  Tag "packagedElement"
    [("xmi:type", "uml:InstanceSpecification"); ("xmi:id", "I2");
     ("name", "Depot"); ("classifier", "C2")]
    [].

Definition model_doc : Node :=
  Tag "[document]" []
    [Tag "uml:Model" [("name", "UPS")]
       [station_class; instance_UPS1; instance_other]].

(** A class without identifier, whose attribute has none either. *)
Definition anonymous_doc : Node :=
  Tag "[document]" []
    [Tag "packagedElement" [("xmi:type", "uml:Class"); ("name", "Station")]
       [Tag "ownedAttribute" [("name", "Name")] []]].

(** An owned attribute without name, referred to by a slot without
    value. *)
Definition unnamed_doc : Node :=
  Tag "[document]" []
    [Tag "packagedElement"
       [("xmi:type", "uml:Class"); ("xmi:id", "C1"); ("name", "Station")]
       [Tag "ownedAttribute" [("xmi:id", "A1")] []];
     Tag "packagedElement"
       [("xmi:type", "uml:InstanceSpecification"); ("name", "UPS1");
        ("classifier", "C1")]
       [Tag "slot" [("definingFeature", "A1")] []]].

(** A slot whose only value element is not its child but a grandchild. *)
Definition nested_doc : Node :=
  Tag "[document]" []
    [Tag "packagedElement"
       [("xmi:type", "uml:Class"); ("xmi:id", "C1"); ("name", "Station")]
       [attribute_A1];
     Tag "packagedElement"
       [("xmi:type", "uml:InstanceSpecification"); ("name", "UPS1");
        ("classifier", "C1")]
       [Tag "slot" [("definingFeature", "A1")]
          [Tag "extension" [] [Tag "value" [("symbol", "deep")] []]]]].

(** A slot that resolves and whose value has no symbol. *)
Definition symbolless_doc : Node :=
  Tag "[document]" []
    [Tag "packagedElement"
       [("xmi:type", "uml:Class"); ("xmi:id", "C1"); ("name", "Station")]
       [attribute_A1];
     Tag "packagedElement"
       [("xmi:type", "uml:InstanceSpecification"); ("name", "UPS1");
        ("classifier", "C1")]
       [Tag "slot" [("definingFeature", "A1")] [Tag "value" [] []]]].

(** An instance specification whose classifier is the empty string, and
    one that has no classifier. *)
Definition unclassified_doc : Node :=
  Tag "[document]" []
    [Tag "packagedElement"
       [("xmi:type", "uml:InstanceSpecification"); ("name", "a");
        ("classifier", EmptyString)]
       [];
     Tag "packagedElement"
       [("xmi:type", "uml:InstanceSpecification"); ("name", "b")]
       []].

(** An owned attribute without xmi:id ahead of one that has it, and an
    instance with two slots whose defining feature is the empty string,
    the second one without value, around a slot that refers to A1. *)
Definition blank_id_doc : Node :=
  Tag "[document]" []
    [Tag "packagedElement"
       [("xmi:type", "uml:Class"); ("xmi:id", "C1"); ("name", "Station")]
       [Tag "ownedAttribute" [("name", "NoId")] []; attribute_A1];
     Tag "packagedElement"
       [("xmi:type", "uml:InstanceSpecification"); ("name", "UPS1");
        ("classifier", "C1")]
       [Tag "slot" [("definingFeature", EmptyString)]
          [Tag "value" [("symbol", "v")] []];
        Tag "slot" [("definingFeature", "A1")]
          [Tag "value" [("symbol", "w")] []];
        Tag "slot" [("definingFeature", EmptyString)] []]].

(** A slot whose defining feature is the empty string, in a document where
    every owned attribute has an xmi:id. *)
Definition blank_feature_doc : Node :=
  Tag "[document]" []
    [Tag "packagedElement"
       [("xmi:type", "uml:Class"); ("xmi:id", "C1"); ("name", "Station")]
       [attribute_A1];
     Tag "packagedElement"
       [("xmi:type", "uml:InstanceSpecification"); ("name", "UPS1");
        ("classifier", "C1")]
       [Tag "slot" [("definingFeature", EmptyString)]
          [Tag "value" [("symbol", "v")] []];
        slot_gate]].

(** A document without any class. *)
Definition empty_doc : Node := Tag "[document]" [] [Tag "uml:Model" [] []].

(** A store that holds one parsed document. *)
Definition store (d : Node) : World := mkWorld [] [d] [].

(** A world where the input file is still to be read, and a parser that
    reads it as [d]. *)
Definition input_world : World := mkWorld [(file_path, "<xmi/>")] [] [].

Definition parser_of (d : Node) (content : string) : option Node := Some d.

Definition root : TagRef := mkRef 0 [].

(** The end-to-end scenario: one class, one attribute, one instance with
    one slot. *)
Definition scenario_doc : Node :=
  Tag "[document]" []
    [Tag "packagedElement"
       [("xmi:type", "uml:Class"); ("xmi:id", "C1"); ("name", "Station")]
       [attribute_A1];
     Tag "packagedElement"
       [("xmi:type", "uml:InstanceSpecification"); ("xmi:id", "I1");
        ("name", "UPS1"); ("classifier", "C1")]
       [slot_gate]].

(** The line printed for one attribute entry, and the lines printed for one
    record. *)
Definition attribute_line (attr : AttributeEntry) : string :=
  ("  - " ++ attribute_name attr ++ " : " ++ attribute_value attr)%string.

Definition station_lines (st : StationData) : list string :=
  (LF ++ "Station: " ++ station_name st)%string
  :: map attribute_line (attributes st).

(** The record of the instance node [n] in document [d], or the exception
    its construction raises. *)
Definition station_record (d n : Node) : Exn + StationData :=
  match assoc "name" (node_attrs n) with
  | None => inl (KeyError "name")
  | Some nm =>
      match slots_outcome d (map snd (search "slot" [] n)) [] with
      | inl e => inl e
      | inr attributes => inr (mkStation nm attributes)
      end
  end.

(** A good instance followed by one without name. *)
Definition mixed_doc : Node :=
  Tag "[document]" []
    [station_class;
     Tag "packagedElement"
       [("xmi:type", "uml:InstanceSpecification"); ("name", "UPS1");
        ("classifier", "C1")]
       [slot_gate];
     Tag "packagedElement"
       [("xmi:type", "uml:InstanceSpecification"); ("classifier", "C1")]
       []].

(** * Properties *)

(** ** Trees, paths and document order *)

Lemma Node_nested_ind (P : Node -> Prop) :
  (forall s, P (NavigableString s)) ->
  (forall nm a cs, Forall P cs -> P (Tag nm a cs)) ->
  forall n, P n.
Proof.
  intros Hs Ht. fix IH 1. intros [nm a cs | s].
  - apply Ht. induction cs as [| c cs IHcs]; constructor.
    + apply IH.
    + exact IHcs.
  - apply Hs.
Qed.

Lemma descendants_Tag nm a cs :
  descendants (Tag nm a cs) = walk_children 0 cs.
Proof.
  simpl. generalize 0. induction cs as [| c cs IH]; intros i; simpl.
  - reflexivity.
  - now rewrite IH.
Qed.

Lemma descendants_contents n :
  descendants n = walk_children 0 (node_contents n).
Proof. destruct n; [apply descendants_Tag | reflexivity]. Qed.

Lemma path_ltb_irrefl p : path_ltb p p = false.
Proof.
  induction p as [| i p IH]; simpl; [reflexivity |].
  now rewrite Nat.ltb_irrefl, Nat.eqb_refl.
Qed.

Lemma path_ltb_trans p q r :
  path_ltb p q = true -> path_ltb q r = true -> path_ltb p r = true.
Proof.
  revert q r. induction p as [| i p IH]; intros [| j q] [| k r]; simpl;
    try congruence.
  destruct (Nat.ltb_spec i j), (Nat.ltb_spec j k), (Nat.ltb_spec i k);
    try reflexivity; try lia; try discriminate;
    destruct (Nat.eqb_spec i j), (Nat.eqb_spec j k), (Nat.eqb_spec i k);
    try discriminate; try lia.
  apply IH.
Qed.

Lemma path_ltb_asym p q : path_ltb p q = true -> path_ltb q p = false.
Proof.
  intros H. destruct (path_ltb q p) eqn:E; [| reflexivity].
  pose proof (path_ltb_trans _ _ _ H E) as C.
  now rewrite path_ltb_irrefl in C.
Qed.

Lemma path_ltb_app a p q : path_ltb (a ++ p) (a ++ q) = path_ltb p q.
Proof.
  induction a as [| i a IH]; simpl; [reflexivity |].
  now rewrite Nat.ltb_irrefl, Nat.eqb_refl.
Qed.

Lemma subtree_app n p q :
  subtree n (p ++ q) =
  match subtree n p with
  | Some m => subtree m q
  | None => None
  end.
Proof.
  revert n. induction p as [| i p IH]; intros n; simpl; [reflexivity |].
  destruct (nth_error (node_contents n) i); [apply IH | reflexivity].
Qed.

(** What [walk_children] lists: the nodes reached through the [j]-th
    sibling, under the index [i + j]. *)
Lemma walk_children_In cs :
  Forall (fun c => forall p m,
            In (p, m) (descendants c) <-> p <> [] /\ subtree c p = Some m) cs ->
  forall i p m,
    In (p, m) (walk_children i cs) <->
    exists j q c, p = (i + j) :: q /\ nth_error cs j = Some c
                  /\ subtree c q = Some m.
Proof.
  induction 1 as [| c cs Hc _ IH]; intros i p m; simpl.
  - split; [intros [] | intros (j & q & c & _ & H & _); now destruct j].
  - rewrite in_app_iff, in_map_iff, IH. split.
    + intros [E | [((q, m') & E & Hin) | (j & q & c' & -> & Hn & Hs)]].
      * injection E as <- <-. exists 0, [], c. now rewrite Nat.add_0_r.
      * simpl in E. injection E as <- <-. apply Hc in Hin as [_ Hs].
        exists 0, q, c. now rewrite Nat.add_0_r.
      * exists (S j), q, c'. repeat split; [f_equal; lia | assumption ..].
    + intros ([| j] & q & c' & -> & Hn & Hs); simpl in Hn.
      * injection Hn as <-. rewrite Nat.add_0_r.
        destruct q as [| k q].
        -- simpl in Hs. injection Hs as <-. now left.
        -- right. left. exists (k :: q, m). split; [reflexivity |].
           apply Hc. split; [discriminate | assumption].
      * right. right. exists j, q, c'.
        repeat split; [f_equal; lia | assumption ..].
Qed.

(** The descendants of a node are exactly the nodes at its non-empty
    paths. *)
Lemma descendants_In n :
  forall p m, In (p, m) (descendants n) <-> p <> [] /\ subtree n p = Some m.
Proof.
  induction n as [s | nm a cs IH] using Node_nested_ind; intros p m.
  - simpl. split; [intros [] |]. intros [Hp Hs]. destruct p as [| i p].
    + now elim Hp.
    + simpl in Hs. now destruct i.
  - rewrite descendants_Tag, (walk_children_In cs IH). simpl. split.
    + intros (j & q & c & -> & Hn & Hs). split; [discriminate |].
      simpl. now rewrite Hn.
    + intros [Hp Hs]. destruct p as [| i p]; [now elim Hp |].
      simpl in Hs. destruct (nth_error cs i) as [c |] eqn:Hn; [| discriminate].
      now exists i, p, c.
Qed.

Lemma StronglySorted_app {A : Type} (R : A -> A -> Prop) l1 l2 :
  StronglySorted R l1 -> StronglySorted R l2 ->
  (forall x y, In x l1 -> In y l2 -> R x y) ->
  StronglySorted R (l1 ++ l2).
Proof.
  induction 1 as [| x l1 Hs IH Hx]; intros H2 H12; simpl; [assumption |].
  constructor.
  - apply IH; [assumption |]. intros; apply H12; simpl; auto.
  - apply Forall_app. split; [assumption |].
    apply Forall_forall. intros y Hy. apply H12; simpl; auto.
Qed.

Lemma StronglySorted_map {A B : Type} (R : A -> A -> Prop) (Q : B -> B -> Prop)
  (f : A -> B) l :
  (forall x y, R x y -> Q (f x) (f y)) ->
  StronglySorted R l -> StronglySorted Q (map f l).
Proof.
  intros Hf. induction 1 as [| x l Hs IH Hx]; simpl; constructor.
  - assumption.
  - apply Forall_map. eapply Forall_impl; [| exact Hx]. intros; now apply Hf.
Qed.

Lemma StronglySorted_filter {A : Type} (R : A -> A -> Prop) (f : A -> bool) l :
  StronglySorted R l -> StronglySorted R (filter f l).
Proof.
  induction 1 as [| x l Hs IH Hx]; simpl; [constructor |].
  destruct (f x); [| assumption]. constructor; [assumption |].
  apply Forall_forall. intros y Hy. apply filter_In in Hy as [Hy _].
  rewrite Forall_forall in Hx. now apply Hx.
Qed.

Lemma walk_children_sorted cs :
  Forall (fun c => StronglySorted entry_before (descendants c)) cs ->
  forall i, StronglySorted entry_before (walk_children i cs).
Proof.
  induction 1 as [| c cs Hc Hcs IH]; intros i; simpl; [constructor |].
  assert (Hhead : forall y, In y (walk_children (S i) cs) ->
                   exists j q, fst y = j :: q /\ i < j).
  { intros [p m] Hin.
    assert (Hd : Forall (fun c => forall p m, In (p, m) (descendants c) <->
                           p <> [] /\ subtree c p = Some m) cs)
      by (apply Forall_forall; intros; apply descendants_In).
    apply (walk_children_In cs Hd) in Hin as (j & q & _ & -> & _).
    exists (S i + j), q. split; [reflexivity | lia]. }
  constructor.
  - apply StronglySorted_app.
    + apply (StronglySorted_map entry_before); [| exact Hc].
      intros x y Hxy. unfold entry_before, doc_before in *. simpl.
      now rewrite Nat.ltb_irrefl, Nat.eqb_refl.
    + apply IH.
    + intros x y Hx Hy. apply in_map_iff in Hx as (x' & <- & _).
      apply Hhead in Hy as (j & q & E & Hlt).
      unfold entry_before, doc_before. rewrite E. simpl.
      apply Nat.ltb_lt in Hlt. now rewrite Hlt.
  - apply Forall_app. split.
    + apply Forall_forall. intros x Hx.
      apply in_map_iff in Hx as ((p, m) & <- & Hin).
      apply descendants_In in Hin as [Hp _].
      unfold entry_before, doc_before. simpl.
      rewrite Nat.ltb_irrefl, Nat.eqb_refl. now destruct p.
    + apply Forall_forall. intros y Hy.
      apply Hhead in Hy as (j & q & E & Hlt).
      unfold entry_before, doc_before. rewrite E. simpl.
      apply Nat.ltb_lt in Hlt. now rewrite Hlt.
Qed.

(** [descendants] lists the nodes in document order. *)
Lemma descendants_sorted n : StronglySorted entry_before (descendants n).
Proof.
  induction n as [s | nm a cs IH] using Node_nested_ind.
  - constructor.
  - rewrite descendants_Tag. now apply walk_children_sorted.
Qed.

Lemma entry_before_irrefl x : ~ entry_before x x.
Proof. unfold entry_before, doc_before. now rewrite path_ltb_irrefl. Qed.

Lemma entry_before_asym x y : entry_before x y -> entry_before y x -> False.
Proof.
  unfold entry_before, doc_before. intros H1 H2.
  apply path_ltb_asym in H1. congruence.
Qed.

(** A list in strict order is determined by its elements. *)
Lemma strict_sorted_ext {A : Type} (R : A -> A -> Prop) :
  (forall x y, R x y -> R y x -> False) ->
  (forall x, ~ R x x) ->
  forall l1 l2,
    StronglySorted R l1 -> StronglySorted R l2 ->
    (forall x, In x l1 <-> In x l2) -> l1 = l2.
Proof.
  intros Hasym Hirr l1 l2 H1. revert l2.
  induction H1 as [| x l1 Hs1 IH Hx]; intros l2 H2 Hmem.
  - destruct l2 as [| y l2]; [reflexivity |].
    destruct (proj2 (Hmem y)); simpl; auto.
  - destruct H2 as [| y l2 Hs2 Hy].
    + destruct (proj1 (Hmem x)); simpl; auto.
    + rewrite Forall_forall in Hx, Hy.
      assert (Exy : x = y).
      { destruct (proj1 (Hmem x)) as [E | Hin]; simpl; auto.
        destruct (proj2 (Hmem y)) as [E | Hin']; simpl; auto.
        exfalso. eapply Hasym; [apply Hx, Hin' | apply Hy, Hin]. }
      subst y. f_equal. apply IH; [assumption |].
      intros z. split; intros Hz.
      * destruct (proj1 (Hmem z)) as [E | Hin]; simpl; auto.
        subst z. exfalso. eapply Hirr, Hx, Hz.
      * destruct (proj2 (Hmem z)) as [E | Hin]; simpl; auto.
        subst z. exfalso. eapply Hirr, Hy, Hz.
Qed.

(** The first element of a sorted list that passes a filter is the least
    one that passes it. *)
Lemma hd_filter_least {A : Type} (R : A -> A -> Prop) (f : A -> bool) l x :
  (forall a b, R a b -> R b a -> False) ->
  StronglySorted R l ->
  In x l -> f x = true ->
  (forall y, In y l -> f y = true -> y = x \/ R x y) ->
  hd_error (filter f l) = Some x.
Proof.
  intros Hasym Hs. induction Hs as [| a l Hs IH Ha]; intros Hin Hfx Hmin.
  - destruct Hin.
  - simpl. destruct (f a) eqn:Hfa.
    + simpl. f_equal. destruct Hin as [E | Hin]; [assumption |].
      destruct (Hmin a) as [E | Hxa]; simpl; auto.
      rewrite Forall_forall in Ha. exfalso. eapply Hasym; [apply Ha, Hin | exact Hxa].
    + apply IH.
      * destruct Hin as [E | Hin]; [congruence | assumption].
      * assumption.
      * intros y Hy. apply Hmin. now right.
Qed.

Lemma filter_none {A : Type} (f : A -> bool) l :
  (forall x, In x l -> f x = false) -> filter f l = [].
Proof.
  induction l as [| a l IH]; intros H; simpl; [reflexivity |].
  rewrite (H a) by (simpl; auto). apply IH. intros; apply H; simpl; auto.
Qed.

(** ** Filters of a search *)

Lemma matches_tag_spec name flt n :
  matches_tag name flt n = true <->
  node_name n = Some name /\
  Forall (fun km => matches_value (assoc (fst km) (node_attrs n)) (snd km) = true) flt.
Proof.
  destruct n as [nm a cs | s]; simpl.
  - rewrite andb_true_iff, String.eqb_eq, forallb_forall, Forall_forall.
    split; intros [H1 H2]; split; congruence || assumption.
  - split; [discriminate | intros [H _]; discriminate].
Qed.

(** A filter string is passed by the attribute that holds it and, in the
    releases up to 4.12, the empty one also by a missing attribute. *)
Lemma matches_value_MStr v s :
  matches_value v (MStr s) = true <->
  v = Some s \/ (release = Legacy /\ s = EmptyString /\ v = None).
Proof.
  destruct v as [t |]; simpl.
  - rewrite String.eqb_eq. split.
    + intros ->. now left.
    + intros [H | (_ & _ & H)]; congruence.
  - destruct release, s as [| c s]; simpl; split;
      try discriminate; try (intros [H | (H1 & H2 & _)]; congruence).
    intros _. right. auto.
Qed.

Lemma matches_value_truthy v s :
  truthy s = true \/ release = Current ->
  matches_value v (MStr s) = true <-> v = Some s.
Proof.
  intros Hs. rewrite matches_value_MStr. split; [| now left].
  intros [H | (Hr & -> & _)]; [assumption |].
  destruct Hs as [Hs | Hs]; [discriminate | congruence].
Qed.

Lemma matches_value_single v s : matches_value v (MList [s]) = true <-> v = Some s.
Proof.
  destruct v as [t |]; simpl.
  - rewrite orb_false_r, String.eqb_eq. split; congruence.
  - destruct release; split; discriminate.
Qed.

Lemma matches_tag_name name n :
  matches_tag name [] n = true <-> node_name n = Some name.
Proof.
  rewrite matches_tag_spec. split; [tauto | intros; split; [assumption | constructor]].
Qed.

Lemma matches_station_class n :
  matches_tag "packagedElement"
    [("xmi:type", MStr "uml:Class"); ("name", MList ["Station"])] n = true
  <-> is_station_class n.
Proof.
  rewrite matches_tag_spec. unfold is_station_class. split.
  - intros [Hn Hf]. inversion Hf as [| ? ? H1 Hf']; subst.
    inversion Hf' as [| ? ? H2 _]; subst. simpl in *.
    apply matches_value_truthy in H1; [| now left].
    apply matches_value_single in H2. auto.
  - intros (Hn & H1 & H2). split; [assumption |].
    repeat constructor; simpl.
    + apply matches_value_truthy; [now left | assumption].
    + now apply matches_value_single.
Qed.

Lemma passes_spec key s n :
  matches_value (assoc key (node_attrs n)) (MStr s) = true <-> passes key s n.
Proof. apply matches_value_MStr. Qed.

(** With an identifier that is not empty, and from release 4.13 on with
    any identifier, a filter is passed by the attribute that holds the
    identifier, and by nothing else. *)
Lemma passes_exact key s n :
  truthy s = true \/ release = Current ->
  passes key s n <-> assoc key (node_attrs n) = Some s.
Proof.
  intros Hs. rewrite <- passes_spec. now apply matches_value_truthy.
Qed.

Lemma matches_classified I n :
  matches_tag "packagedElement"
    [("xmi:type", MStr "uml:InstanceSpecification"); ("classifier", MStr I)] n
  = true
  <-> classified_by I n.
Proof.
  rewrite matches_tag_spec. unfold classified_by. split.
  - intros [Hn Hf]. inversion Hf as [| ? ? H1 Hf']; subst.
    inversion Hf' as [| ? ? H2 _]; subst. simpl in *.
    apply matches_value_truthy in H1; [| now left].
    apply passes_spec in H2. auto.
  - intros (Hn & H1 & H2). split; [assumption |].
    repeat constructor; simpl.
    + apply matches_value_truthy; [now left | assumption].
    + now apply passes_spec.
Qed.

Lemma classified_by_exact I :
  truthy I = true \/ release = Current ->
  forall n, classified_by I n <-> is_instance_of I n.
Proof.
  intros HI n. unfold classified_by, is_instance_of.
  now rewrite (passes_exact _ _ _ HI).
Qed.

Lemma is_instance_classified I n : is_instance_of I n -> classified_by I n.
Proof. intros (Hn & Ht & Hc). repeat split; try assumption. now left. Qed.

Lemma matches_instance I :
  truthy I = true \/ release = Current ->
  forall n,
    matches_tag "packagedElement"
      [("xmi:type", MStr "uml:InstanceSpecification"); ("classifier", MStr I)] n
    = true
    <-> is_instance_of I n.
Proof.
  intros HI n. rewrite matches_classified. now apply classified_by_exact.
Qed.

Lemma matches_looked_up f n :
  matches_tag "ownedAttribute" [("xmi:id", MStr f)] n = true
  <-> looked_up f n.
Proof.
  rewrite matches_tag_spec. unfold looked_up. split.
  - intros [Hn Hf]. inversion Hf as [| ? ? H1 _]; subst. simpl in H1.
    apply passes_spec in H1. auto.
  - intros [Hn H1]. split; [assumption |]. repeat constructor. simpl.
    now apply passes_spec.
Qed.

Lemma looked_up_exact f :
  truthy f = true \/ release = Current ->
  forall n, looked_up f n <-> is_attribute_with_id f n.
Proof.
  intros Hf n. unfold looked_up, is_attribute_with_id.
  now rewrite (passes_exact _ _ _ Hf).
Qed.

Lemma is_attribute_looked_up f n : is_attribute_with_id f n -> looked_up f n.
Proof. intros [Hn Hi]. split; [assumption | now left]. Qed.

Lemma matches_attribute_with_id f :
  truthy f = true \/ release = Current ->
  forall n,
    matches_tag "ownedAttribute" [("xmi:id", MStr f)] n = true
    <-> is_attribute_with_id f n.
Proof.
  intros Hf n. rewrite matches_looked_up. now apply looked_up_exact.
Qed.

(** ** Running the tree operations *)

Lemma bind_run {A B : Type} (m : M A) (k : A -> M B) w :
  bind m k w =
  match m w with
  | (inl e, w') => (inl e, w')
  | (inr a, w') => k a w'
  end.
Proof. reflexivity. Qed.

Lemma get_node_run w r n : deref w r = Some n -> get_node r w = (inr n, w).
Proof. unfold get_node. now intros ->. Qed.

Lemma find_all_run w r n name flt :
  deref w r = Some n ->
  find_all r name flt w =
  (inr (map (fun pn => below r (fst pn)) (search name flt n)), w).
Proof. intros H. unfold find_all. now rewrite bind_run, (get_node_run _ _ _ H). Qed.

Lemma find_run w r n name flt :
  deref w r = Some n ->
  find r name flt w =
  (inr (hd_error (map (fun pn => below r (fst pn)) (search name flt n))), w).
Proof. intros H. unfold find. now rewrite bind_run, (find_all_run _ _ _ _ _ H). Qed.

Lemma getitem_run w r n key :
  deref w r = Some n ->
  getitem r key w =
  (match assoc key (node_attrs n) with
   | Some v => inr v
   | None => inl (KeyError key)
   end, w).
Proof.
  intros H. unfold getitem. rewrite bind_run, (get_node_run _ _ _ H).
  now destruct (assoc key (node_attrs n)).
Qed.

Lemma deref_below w r n p :
  deref w r = Some n -> deref w (below r p) = subtree n p.
Proof.
  unfold deref, below. simpl. destruct (nth_error (docs w) (ref_doc r)); [| discriminate].
  intros H. now rewrite subtree_app, H.
Qed.

Lemma below_inj r p q : below r p = below r q -> p = q.
Proof. unfold below. intros H. injection H as H. now apply app_inv_head in H. Qed.

Lemma below_before r p q : doc_before p q -> ref_before (below r p) (below r q).
Proof.
  unfold ref_before, doc_before, below. simpl. intros H.
  split; [reflexivity | now rewrite path_ltb_app].
Qed.

Lemma comprehension_getitem_ok w el n key l :
  deref w el = Some n ->
  (forall pm, In pm l -> subtree n (fst pm) = Some (snd pm)) ->
  Forall (fun pm => assoc key (node_attrs (snd pm)) <> None) l ->
  exists ids,
    comprehension (fun a => getitem a key) (map (fun pn => below el (fst pn)) l) w
    = (inr ids, w)
    /\ Forall2 (fun pm id => assoc key (node_attrs (snd pm)) = Some id) l ids.
Proof.
  intros Hd. induction l as [| [p m] l IH]; intros Hsub Hall; simpl.
  - exists []. split; [reflexivity | constructor].
  - inversion Hall as [| ? ? Hm Hl]; subst. simpl in Hm.
    destruct (assoc key (node_attrs m)) as [v |] eqn:Hv; [| now elim Hm].
    destruct IH as (ids & Hrun & Hids); [intros; apply Hsub; simpl; auto | assumption |].
    exists (v :: ids). split.
    + rewrite bind_run, (getitem_run w _ m).
      * rewrite Hv, bind_run, Hrun. reflexivity.
      * rewrite (deref_below _ _ _ _ Hd). apply (Hsub (p, m)). simpl; auto.
    + constructor; assumption.
Qed.

Lemma comprehension_getitem_error w el n key l :
  deref w el = Some n ->
  (forall pm, In pm l -> subtree n (fst pm) = Some (snd pm)) ->
  Exists (fun pm => assoc key (node_attrs (snd pm)) = None) l ->
  comprehension (fun a => getitem a key) (map (fun pn => below el (fst pn)) l) w
  = (inl (KeyError key), w).
Proof.
  intros Hd. induction l as [| [p m] l IH]; intros Hsub Hex; simpl.
  - inversion Hex.
  - rewrite bind_run, (getitem_run w _ m).
    2:{ rewrite (deref_below _ _ _ _ Hd). apply (Hsub (p, m)). simpl; auto. }
    destruct (assoc key (node_attrs m)) as [v |] eqn:Hv; [| reflexivity].
    rewrite bind_run, IH; [reflexivity | intros; apply Hsub; simpl; auto |].
    inversion Hex as [? ? Hm | ? ? Hl]; subst; [simpl in Hm; congruence | assumption].
Qed.

(** The tags named [name] below [n], in document order: what a search by
    name alone returns. *)
Lemma named_descendants_unique n name l :
  StronglySorted entry_before l ->
  (forall p m, In (p, m) l <->
               p <> [] /\ subtree n p = Some m /\ node_name m = Some name) ->
  l = search name [] n.
Proof.
  intros Hs Hmem. unfold search.
  apply (strict_sorted_ext entry_before entry_before_asym entry_before_irrefl).
  - assumption.
  - apply StronglySorted_filter, descendants_sorted.
  - intros [p m]. rewrite Hmem, filter_In, descendants_In. simpl.
    rewrite matches_tag_name. tauto.
Qed.

Lemma search_In name flt n p m :
  In (p, m) (search name flt n) <->
  p <> [] /\ subtree n p = Some m /\ matches_tag name flt m = true.
Proof. unfold search. rewrite filter_In, descendants_In. simpl. tauto. Qed.

Lemma search_sorted name flt n : StronglySorted entry_before (search name flt n).
Proof. apply StronglySorted_filter, descendants_sorted. Qed.

(** ** Instance resolution *)

(** C4, amended.  [get_station_instances] returns exactly the packaged
    elements of the document whose type marker is uml:InstanceSpecification
    and whose classifier passes the search for the given identifier: those
    whose classifier is the identifier and, when the identifier is the
    empty string and the release of the tree library is 4.12 or older,
    also those that have no classifier attribute.  A reference is in the
    result if and only if it points at such an element below the root, and
    the result is in strict document order, so each element occurs once.
    With an identifier that is not empty, and from release 4.13 on, the
    result holds the elements whose classifier is the identifier and no
    other.  The document is not changed. *)
Theorem get_station_instances_exact w soup d I :
  deref w soup = Some d ->
  exists result,
    get_station_instances soup I w = (inr result, w)
    /\ (forall r, In r result <->
          exists p n, r = below soup p /\ p <> [] /\ subtree d p = Some n
                      /\ classified_by I n)
    /\ StronglySorted ref_before result
    /\ (truthy I = true \/ release = Current ->
        forall r, In r result <->
          exists p n, r = below soup p /\ p <> [] /\ subtree d p = Some n
                      /\ is_instance_of I n).
Proof.
  intros Hd. unfold get_station_instances. eexists.
  split; [apply (find_all_run _ _ _ _ _ Hd) |].
  assert (Hmem : forall r,
             In r (map (fun pn => below soup (fst pn))
                     (search "packagedElement"
                        [("xmi:type", MStr "uml:InstanceSpecification");
                         ("classifier", MStr I)] d)) <->
             exists p n, r = below soup p /\ p <> [] /\ subtree d p = Some n
                         /\ classified_by I n).
  { intros r. rewrite in_map_iff. split.
    - intros ((p, n) & <- & Hin). apply search_In in Hin as (Hp & Hs & Hm).
      exists p, n. simpl. apply matches_classified in Hm. auto.
    - intros (p & n & -> & Hp & Hs & Hi). exists (p, n).
      split; [reflexivity |]. apply search_In.
      repeat split; try assumption. now apply matches_classified. }
  split; [exact Hmem | split].
  - apply StronglySorted_map with (R := entry_before).
    + intros x y. apply below_before.
    + apply search_sorted.
  - intros HI r. rewrite Hmem.
    split; intros (p & n & Hr & Hp & Hs & Hi); exists p, n;
      (split; [| split; [| split]]); try assumption;
      now apply (classified_by_exact I HI).
Qed.

(** ** Attribute enumeration *)

(** C5, amended.  Let [owned] be the ownedAttribute tags below the class
    element, in document order.  When each of them carries an xmi:id,
    [get_station_attributes] returns as many identifiers as there are such
    tags, the i-th identifier being the xmi:id of the i-th tag; when one of
    them carries none, the call raises [KeyError] and returns no list. *)
Theorem get_station_attributes_ids w el n owned :
  deref w el = Some n ->
  StronglySorted entry_before owned ->
  (forall p m, In (p, m) owned <->
               p <> [] /\ subtree n p = Some m
               /\ node_name m = Some "ownedAttribute") ->
  (Forall (fun pm => assoc "xmi:id" (node_attrs (snd pm)) <> None) owned ->
   exists ids,
     get_station_attributes el w = (inr ids, w)
     /\ length ids = length owned
     /\ Forall2 (fun pm id => assoc "xmi:id" (node_attrs (snd pm)) = Some id)
          owned ids)
  /\ (Exists (fun pm => assoc "xmi:id" (node_attrs (snd pm)) = None) owned ->
      get_station_attributes el w = (inl (KeyError "xmi:id"), w)).
Proof.
  intros Hd Hs Hmem.
  assert (Hsub : forall pm, In pm owned -> subtree n (fst pm) = Some (snd pm)).
  { intros [p m] Hin. now apply Hmem in Hin. }
  pose proof (named_descendants_unique _ _ _ Hs Hmem) as Eo.
  unfold get_station_attributes. rewrite bind_run, (find_all_run _ _ _ _ _ Hd), <- Eo.
  split.
  - intros Hall.
    destruct (comprehension_getitem_ok w el n "xmi:id" owned Hd Hsub Hall)
      as (ids & Hrun & Hids).
    exists ids. repeat split; [assumption | | assumption].
    symmetry. eapply Forall2_length, Hids.
  - intros Hex. now apply (comprehension_getitem_error w el n).
Qed.

(** ** Class location *)

Lemma search_first name flt (P : Node -> Prop) d p n :
  (forall m, matches_tag name flt m = true <-> P m) ->
  first_in_document P d p n ->
  hd_error (search name flt d) = Some (p, n).
Proof.
  intros HP (Hne & Hs & Hc & Hmin). unfold search.
  apply (hd_filter_least entry_before _ _ (p, n) entry_before_asym
           (descendants_sorted d)).
  - apply descendants_In. auto.
  - now apply HP.
  - intros [q m] Hin Hm. apply descendants_In in Hin as [Hq Hsq].
    apply HP in Hm. destruct (Hmin q m Hq Hsq Hm) as [-> | Hlt].
    + left. f_equal. congruence.
    + now right.
Qed.

Lemma search_none name flt (P : Node -> Prop) d :
  (forall m, matches_tag name flt m = true <-> P m) ->
  (forall p n, p <> [] -> subtree d p = Some n -> ~ P n) ->
  search name flt d = [].
Proof.
  intros HP Hnone. unfold search. apply filter_none.
  intros [p n] Hin. apply descendants_In in Hin as [Hq Hsq].
  destruct (matches_tag _ _ (snd (p, n))) eqn:E; [| reflexivity].
  apply HP in E. now elim (Hnone p n).
Qed.

Lemma search_hd_In name flt d p n :
  hd_error (search name flt d) = Some (p, n) ->
  p <> [] /\ subtree d p = Some n /\ matches_tag name flt n = true.
Proof.
  intros H. apply search_In. destruct (search name flt d); [discriminate |].
  simpl in H. injection H as ->. simpl. auto.
Qed.

Lemma hd_error_map {A B : Type} (f : A -> B) l :
  hd_error (map f l) = option_map f (hd_error l).
Proof. now destruct l. Qed.

Lemma deref_fresh fs ds tr d :
  deref (mkWorld fs (ds ++ [d]) tr) (mkRef (length ds) []) = Some d.
Proof.
  unfold deref. simpl. rewrite nth_error_app2 by lia.
  now rewrite Nat.sub_diag.
Qed.

Lemma get_station_id_run parser w path content d :
  assoc path (files w) = Some content ->
  parser content = Some d ->
  let soup := mkRef (length (docs w)) [] in
  let w' := mkWorld (files w) (docs w ++ [d]) (trace w ++ [EvRead path]) in
  get_station_id parser path w =
  match hd_error (search "packagedElement"
                    [("xmi:type", MStr "uml:Class");
                     ("name", MList ["Station"])] d) with
  | Some (p, n) =>
      match assoc "xmi:id" (node_attrs n) with
      | Some id => (inr (Some (id, below soup p)), w')
      | None => (inl (KeyError "xmi:id"), w')
      end
  | None => (inr None, w')
  end.
Proof.
  intros Hf Hp soup w'. unfold get_station_id.
  rewrite bind_run. unfold read_text at 1. rewrite Hf.
  rewrite bind_run. unfold BeautifulSoup at 1. rewrite Hp.
  simpl docs. simpl files. simpl trace. fold soup. fold w'.
  assert (Hd : deref w' soup = Some d) by apply deref_fresh.
  rewrite bind_run, (find_run _ _ _ _ _ Hd), hd_error_map.
  destruct (hd_error _) as [[p n] |] eqn:Hhd; simpl; [| reflexivity].
  apply search_hd_In in Hhd as (_ & Hs & _).
  assert (Hn : deref w' (below soup p) = Some n)
    by now rewrite (deref_below _ _ _ _ Hd).
  rewrite bind_run, (getitem_run _ _ _ _ Hn).
  now destruct (assoc "xmi:id" (node_attrs n)).
Qed.

(** C3, amended.  When the file holds a document whose first packaged
    element of type uml:Class named Station carries an xmi:id,
    [get_station_id] returns that identifier together with a reference to
    that element of the freshly parsed document; when that element
    carries no xmi:id the call raises [KeyError]; when the document has no
    such element the call returns the null pair. *)
Theorem get_station_id_first parser w path content d :
  assoc path (files w) = Some content ->
  parser content = Some d ->
  let soup := mkRef (length (docs w)) [] in
  let w' := mkWorld (files w) (docs w ++ [d]) (trace w ++ [EvRead path]) in
  (forall p n, first_in_document is_station_class d p n ->
     deref w' (below soup p) = Some n
     /\ get_station_id parser path w =
        match assoc "xmi:id" (node_attrs n) with
        | Some id => (inr (Some (id, below soup p)), w')
        | None => (inl (KeyError "xmi:id"), w')
        end)
  /\ ((forall p n, p <> [] -> subtree d p = Some n -> ~ is_station_class n) ->
      get_station_id parser path w = (inr None, w')).
Proof.
  intros Hf Hp soup w'.
  pose proof (get_station_id_run parser w path content d Hf Hp) as Hrun.
  cbv zeta in Hrun. fold soup in Hrun. fold w' in Hrun. split.
  - intros p n Hfirst. split.
    + rewrite (deref_below _ _ d); [apply Hfirst | apply deref_fresh].
    + rewrite Hrun.
      now rewrite (search_first _ _ _ _ _ _ matches_station_class Hfirst).
  - intros Hnone.
    now rewrite Hrun, (search_none _ _ _ _ matches_station_class Hnone).
Qed.

(** ** Effects of the operations *)

Lemma say_nil w : say w [] = w.
Proof. destruct w. unfold say. simpl. now rewrite app_nil_r. Qed.

Lemma say_say w l1 l2 : say (say w l1) l2 = say w (l1 ++ l2).
Proof. unfold say. simpl. now rewrite map_app, app_assoc. Qed.

Lemma quiet_ret {A : Type} (a : A) : quiet (ret a).
Proof. now intros w. Qed.

Lemma quiet_raise {A : Type} e : quiet (@raise A e).
Proof. now intros w. Qed.

Lemma quiet_bind {A B : Type} (m : M A) (k : A -> M B) :
  quiet m -> (forall a, quiet (k a)) -> quiet (bind m k).
Proof.
  intros Hm Hk w. rewrite bind_run. specialize (Hm w).
  destruct (m w) as [[e | a] w1]; simpl in *; subst; [reflexivity | apply Hk].
Qed.

Lemma quiet_get_node r : quiet (get_node r).
Proof. intros w. unfold get_node. now destruct (deref w r). Qed.

Lemma quiet_find_all r name flt : quiet (find_all r name flt).
Proof.
  apply quiet_bind; [apply quiet_get_node | intros; apply quiet_ret].
Qed.

Lemma quiet_find r name flt : quiet (find r name flt).
Proof.
  apply quiet_bind; [apply quiet_find_all | intros; apply quiet_ret].
Qed.

Lemma quiet_getitem r key : quiet (getitem r key).
Proof.
  apply quiet_bind; [apply quiet_get_node |].
  intros n. destruct (assoc key (node_attrs n)); [apply quiet_ret | apply quiet_raise].
Qed.

Lemma quiet_for_each {A S : Type} (l : list A) (body : S -> A -> M S) :
  (forall acc x, quiet (body acc x)) -> forall acc, quiet (for_each l acc body).
Proof.
  intros Hb. induction l as [| x l IH]; intros acc; simpl.
  - apply quiet_ret.
  - apply quiet_bind; [apply Hb | intros; apply IH].
Qed.

Lemma quiet_comprehension {A B : Type} (f : A -> M B) l :
  (forall x, quiet (f x)) -> quiet (comprehension f l).
Proof.
  intros Hf. induction l as [| x l IH]; simpl.
  - apply quiet_ret.
  - apply quiet_bind; [apply Hf |]. intros y.
    apply quiet_bind; [apply IH | intros; apply quiet_ret].
Qed.

Lemma quiet_resolve_slot soup acc slot : quiet (resolve_slot soup acc slot).
Proof.
  unfold resolve_slot. apply quiet_bind; [apply quiet_getitem |]. intros f.
  apply quiet_bind; [apply quiet_find |]. intros [a |]; [| apply quiet_ret].
  apply quiet_bind; [apply quiet_getitem |]. intros nm.
  apply quiet_bind; [apply quiet_find |]. intros v.
  apply quiet_bind; [| intros; apply quiet_ret].
  destruct v; [apply quiet_getitem | apply quiet_ret].
Qed.

Lemma quiet_get_station_attributes el : quiet (get_station_attributes el).
Proof.
  apply quiet_bind; [apply quiet_find_all |]. intros l.
  apply quiet_comprehension. intros; apply quiet_getitem.
Qed.

Lemma quiet_get_station_instances soup I : quiet (get_station_instances soup I).
Proof. apply quiet_find_all. Qed.

Lemma quiet_run {A : Type} (m : M A) w : quiet m -> m w = (fst (m w), w).
Proof. intros H. rewrite <- (H w) at 3. now destruct (m w). Qed.

Lemma talks_quiet {A : Type} (m : M A) : quiet m -> talks m.
Proof. intros H w. exists []. now rewrite say_nil. Qed.

Lemma talks_bind {A B : Type} (m : M A) (k : A -> M B) :
  talks m -> (forall a, talks (k a)) -> talks (bind m k).
Proof.
  intros Hm Hk w. rewrite bind_run. destruct (Hm w) as [l1 H1].
  destruct (m w) as [[e | a] w1]; simpl in *; subst.
  - now exists l1.
  - destruct (Hk a (say w l1)) as [l2 H2]. exists (l1 ++ l2).
    now rewrite H2, say_say.
Qed.

Lemma talks_print line : talks (print line).
Proof. intros w. now exists [line]. Qed.

Lemma talks_for_each {A S : Type} (l : list A) (body : S -> A -> M S) :
  (forall acc x, talks (body acc x)) -> forall acc, talks (for_each l acc body).
Proof.
  intros Hb. induction l as [| x l IH]; intros acc; simpl.
  - apply talks_quiet, quiet_ret.
  - apply talks_bind; [apply Hb | intros; apply IH].
Qed.

Lemma talks_build_station soup details inst : talks (build_station soup details inst).
Proof.
  unfold build_station.
  apply talks_bind; [apply talks_quiet, quiet_getitem |]. intros nm.
  apply talks_bind; [apply talks_quiet, quiet_find_all |]. intros slots.
  apply talks_bind.
  { apply talks_quiet, quiet_for_each. intros; apply quiet_resolve_slot. }
  intros attrs. cbv zeta.
  apply talks_bind; [apply talks_print |]. intros _.
  apply talks_bind; [| intros; apply talks_quiet, quiet_ret].
  apply talks_for_each. intros; apply talks_print.
Qed.

Lemma talks_print_station_details insts soup :
  talks (print_station_details insts soup).
Proof. apply talks_for_each. intros; apply talks_build_station. Qed.

Lemma deref_say w lines r : deref (say w lines) r = deref w r.
Proof. reflexivity. Qed.

(** ** No stage changes a parsed document *)

Lemma get_station_id_docs parser path w :
  exists fresh,
    docs (snd (get_station_id parser path w)) = docs w ++ fresh
    /\ (fresh = []
        \/ exists content d,
             assoc path (files w) = Some content
             /\ parser content = Some d /\ fresh = [d]).
Proof.
  unfold get_station_id. rewrite bind_run. unfold read_text at 1.
  destruct (assoc path (files w)) as [content |] eqn:Hf.
  2:{ exists []. simpl. rewrite app_nil_r. auto. }
  rewrite bind_run. unfold BeautifulSoup at 1. simpl docs. simpl files. simpl trace.
  destruct (parser content) as [d |] eqn:Hp.
  2:{ exists []. simpl. rewrite app_nil_r. auto. }
  match goal with
  | |- context [bind ?m ?k ?w'] =>
      assert (Hq : quiet (bind m k))
  end.
  { apply quiet_bind; [apply quiet_find |]. intros [st |]; [| apply quiet_ret].
    apply quiet_bind; [apply quiet_getitem | intros; apply quiet_ret]. }
  rewrite Hq. simpl. exists [d]. split; [reflexivity |]. right. now exists content, d.
Qed.

(** C9. No stage changes a parsed document.  Class location leaves every
    document already in the store as it was and adds at most the one it
    parses, exactly as the parser produced it; attribute enumeration and
    instance resolution leave the whole world unchanged; record building
    leaves the documents and the files unchanged (it only prints). *)
Theorem stages_read_only parser :
  (forall path w,
     exists fresh,
       docs (snd (get_station_id parser path w)) = docs w ++ fresh
       /\ (fresh = []
           \/ exists content d,
                assoc path (files w) = Some content
                /\ parser content = Some d /\ fresh = [d]))
  /\ (forall el w, snd (get_station_attributes el w) = w)
  /\ (forall soup I w, snd (get_station_instances soup I w) = w)
  /\ (forall insts soup w,
        docs (snd (print_station_details insts soup w)) = docs w
        /\ files (snd (print_station_details insts soup w)) = files w
        /\ forall r, deref (snd (print_station_details insts soup w)) r
                     = deref w r).
Proof.
  split; [intros; apply get_station_id_docs |].
  split; [intros; apply quiet_get_station_attributes |].
  split; [intros; apply quiet_get_station_instances |].
  intros insts soup w.
  destruct (talks_print_station_details insts soup w) as [lines ->].
  repeat split.
Qed.

(** ** Record building *)

Lemma resolve_slot_run w soup d slot sn acc :
  deref w soup = Some d ->
  deref w slot = Some sn ->
  resolve_slot soup acc slot w = (slot_outcome d sn acc, w).
Proof.
  intros Hd Hs. unfold resolve_slot, slot_outcome.
  rewrite bind_run, (getitem_run _ _ _ _ Hs).
  destruct (assoc "definingFeature" (node_attrs sn)) as [f |]; [| reflexivity].
  rewrite bind_run, (find_run _ _ _ _ _ Hd), hd_error_map.
  destruct (hd_error (search "ownedAttribute" _ d)) as [[p a] |] eqn:Ha;
    simpl; [| reflexivity].
  apply search_hd_In in Ha as (_ & Hpa & _).
  assert (Hla : deref w (below soup p) = Some a)
    by now rewrite (deref_below _ _ _ _ Hd).
  rewrite bind_run, (getitem_run _ _ _ _ Hla).
  destruct (assoc "name" (node_attrs a)) as [nm |]; [| reflexivity].
  rewrite bind_run, (find_run _ _ _ _ _ Hs), hd_error_map.
  destruct (hd_error (search "value" _ sn)) as [[q v] |] eqn:Hv;
    simpl; [| reflexivity].
  apply search_hd_In in Hv as (_ & Hqv & _).
  assert (Hlv : deref w (below slot q) = Some v)
    by now rewrite (deref_below _ _ _ _ Hs).
  rewrite bind_run, (getitem_run _ _ _ _ Hlv).
  now destruct (assoc "symbol" (node_attrs v)).
Qed.

Lemma for_each_skip {A S : Type} (body : S -> A -> M S) w l1 x l2 :
  (forall acc y, quiet (body acc y)) ->
  (forall acc, body acc x w = (inr acc, w)) ->
  forall acc,
    for_each (l1 ++ x :: l2) acc body w = for_each (l1 ++ l2) acc body w.
Proof.
  intros Hq Hx. induction l1 as [| y l1 IH]; intros acc; simpl.
  - now rewrite bind_run, Hx.
  - rewrite !bind_run, (quiet_run _ w (Hq acc y)).
    destruct (fst (body acc y w)); [reflexivity | apply IH].
Qed.

Lemma for_each_print_attr l w :
  for_each l tt print_attr w =
  (inr tt,
   say w (map (fun a => ("  - " ++ attribute_name a ++ " : "
                         ++ attribute_value a)%string) l)).
Proof.
  revert w. induction l as [| a l IH]; intros w; simpl.
  - now rewrite say_nil.
  - rewrite bind_run. unfold print_attr at 1, print. rewrite IH.
    f_equal. unfold say. simpl. now rewrite <- app_assoc.
Qed.

(** The outcome of [build_station]: the record is the instance's name with
    the attribute list that the loop over its slots leaves. *)
Lemma build_station_outcome soup details inst w slots :
  find_all inst "slot" [] w = (inr slots, w) ->
  fst (build_station soup details inst w) =
  fst ((station_name <- getitem inst "name" ;;
        attributes <- for_each slots [] (resolve_slot soup) ;;
        ret (details ++ [mkStation station_name attributes])) w).
Proof.
  intros Hfa. unfold build_station. rewrite !bind_run.
  rewrite (quiet_run _ w (quiet_getitem inst "name")).
  destruct (fst (getitem inst "name" w)) as [e | nm]; [reflexivity |].
  rewrite bind_run, Hfa, !bind_run.
  rewrite (quiet_run _ w (quiet_for_each slots _ (quiet_resolve_slot soup) [])).
  destruct (fst (for_each slots [] (resolve_slot soup) w)) as [e | attrs];
    [reflexivity |].
  cbv zeta. rewrite bind_run. unfold print at 1.
  now rewrite bind_run, for_each_print_attr.
Qed.

(** C1, amended.  A slot whose definingFeature identifier selects no
    ownedAttribute of the document is skipped: resolving it raises nothing
    and leaves the attribute list as it was, the loop over the slots of the
    instance ends as it does over the other slots alone, and so does the
    record (or the exception) of the instance.  The identifier selects the
    ownedAttributes that have it as xmi:id and, when it is the empty
    string and the release of the tree library is 4.12 or older, also
    those that have no xmi:id. *)
Theorem dangling_slot_skipped w soup d inst before slot after sn f details :
  deref w soup = Some d ->
  find_all inst "slot" [] w = (inr (before ++ slot :: after), w) ->
  deref w slot = Some sn ->
  assoc "definingFeature" (node_attrs sn) = Some f ->
  (forall p a, p <> [] -> subtree d p = Some a -> ~ looked_up f a) ->
  (forall acc, resolve_slot soup acc slot w = (inr acc, w))
  /\ for_each (before ++ slot :: after) [] (resolve_slot soup) w
     = for_each (before ++ after) [] (resolve_slot soup) w
  /\ fst (build_station soup details inst w) =
     fst ((station_name <- getitem inst "name" ;;
           attributes <- for_each (before ++ after) [] (resolve_slot soup) ;;
           ret (details ++ [mkStation station_name attributes])) w).
Proof.
  intros Hd Hfa Hs Hf Hnone.
  assert (Hskip : forall acc, resolve_slot soup acc slot w = (inr acc, w)).
  { intros acc. rewrite (resolve_slot_run _ _ _ _ _ _ Hd Hs).
    unfold slot_outcome. rewrite Hf.
    now rewrite (search_none _ _ _ _ (matches_looked_up f) Hnone). }
  assert (Hloop : for_each (before ++ slot :: after) [] (resolve_slot soup) w
                  = for_each (before ++ after) [] (resolve_slot soup) w)
    by (apply for_each_skip; [apply quiet_resolve_slot | exact Hskip]).
  repeat split; [exact Hskip | exact Hloop |].
  rewrite (build_station_outcome _ _ _ _ _ Hfa), !bind_run.
  destruct (getitem inst "name" w) as [[e | nm] w1] eqn:Hg; [reflexivity |].
  pose proof (quiet_getitem inst "name" w) as Hq. rewrite Hg in Hq.
  simpl in Hq. subst w1. now rewrite !bind_run, Hloop.
Qed.

Lemma slots_loop_run w soup d inst n l acc :
  deref w soup = Some d ->
  deref w inst = Some n ->
  (forall pm, In pm l -> subtree n (fst pm) = Some (snd pm)) ->
  for_each (map (fun pn => below inst (fst pn)) l) acc (resolve_slot soup) w
  = (slots_outcome d (map snd l) acc, w).
Proof.
  intros Hd Hn. revert acc. induction l as [| [p sn] l IH]; intros acc Hsub; simpl.
  - reflexivity.
  - rewrite bind_run, (resolve_slot_run _ _ d _ sn).
    + destruct (slot_outcome d sn acc); [reflexivity |].
      apply IH. intros; apply Hsub; simpl; auto.
    + assumption.
    + rewrite (deref_below _ _ _ _ Hn). apply (Hsub (p, sn)). simpl; auto.
Qed.

Lemma build_station_run w soup d inst n details :
  deref w soup = Some d ->
  deref w inst = Some n ->
  fst (build_station soup details inst w) = station_outcome d n details.
Proof.
  intros Hd Hn.
  rewrite (build_station_outcome _ _ _ _ _ (find_all_run _ _ _ _ _ Hn)).
  rewrite bind_run, (getitem_run _ _ _ _ Hn). unfold station_outcome.
  destruct (assoc "name" (node_attrs n)) as [nm |]; [| reflexivity].
  rewrite bind_run, (slots_loop_run _ _ d _ n); try assumption.
  - now destruct (slots_outcome d _ []).
  - intros [p m] Hin. now apply search_In in Hin.
Qed.

Lemma deref_docs w w0 r : docs w = docs w0 -> deref w r = deref w0 r.
Proof. unfold deref. now intros ->. Qed.

Lemma stations_loop_run w0 soup d insts nodes :
  deref w0 soup = Some d ->
  Forall2 (fun r n => deref w0 r = Some n) insts nodes ->
  forall acc w,
    docs w = docs w0 ->
    fst (for_each insts acc (build_station soup) w) = stations_outcome d nodes acc.
Proof.
  intros Hd Hall.
  induction Hall as [| r n insts nodes Hr Hall IH]; intros acc w Hw; simpl.
  - reflexivity.
  - rewrite bind_run.
    pose proof (build_station_run w soup d r n acc) as Hrun.
    rewrite !(deref_docs _ _ _ Hw) in Hrun. specialize (Hrun Hd Hr).
    destruct (talks_build_station soup acc r w) as [lines Hsay].
    destruct (build_station soup acc r w) as [[e | acc'] w1]; simpl in *;
      rewrite <- Hrun; [reflexivity |].
    apply IH. now subst w1.
Qed.

(** The record builder computes [stations_outcome] of the nodes its
    instance references point at. *)
Lemma print_station_details_run w soup d insts nodes :
  deref w soup = Some d ->
  Forall2 (fun r n => deref w r = Some n) insts nodes ->
  fst (print_station_details insts soup w) = stations_outcome d nodes [].
Proof.
  intros Hd Hall. unfold print_station_details.
  now apply (stations_loop_run w soup d insts nodes).
Qed.

Lemma slot_outcome_KeyError d sn acc e :
  slot_outcome d sn acc = inl e -> exists key, e = KeyError key.
Proof.
  unfold slot_outcome. intros H.
  repeat match type of H with
         | match ?x with _ => _ end = _ => destruct x
         | (let (_, _) := ?x in _) = _ => destruct x
         end;
    try discriminate; injection H as <-; eauto.
Qed.

Lemma slots_outcome_KeyError d l acc e :
  slots_outcome d l acc = inl e -> exists key, e = KeyError key.
Proof.
  revert acc. induction l as [| sn l IH]; intros acc; simpl; [discriminate |].
  destruct (slot_outcome d sn acc) eqn:E.
  - intros H. injection H as <-. eapply slot_outcome_KeyError, E.
  - apply IH.
Qed.

Lemma station_outcome_KeyError d n acc e :
  station_outcome d n acc = inl e -> exists key, e = KeyError key.
Proof.
  unfold station_outcome. destruct (assoc "name" (node_attrs n)).
  - destruct (slots_outcome d _ []) eqn:E; [| discriminate].
    intros H. injection H as <-. eapply slots_outcome_KeyError, E.
  - intros H. injection H as <-. eauto.
Qed.

Lemma slots_outcome_raises d l sn :
  In sn l ->
  (forall acc, exists e, slot_outcome d sn acc = inl e) ->
  forall acc, exists key, slots_outcome d l acc = inl (KeyError key).
Proof.
  intros Hin Hsn. induction l as [| x l IH]; intros acc; [destruct Hin |].
  simpl. destruct (slot_outcome d x acc) as [e | acc'] eqn:E.
  - destruct (slot_outcome_KeyError _ _ _ _ E) as [key ->]. eauto.
  - destruct Hin as [-> | Hin]; [| now apply IH].
    destruct (Hsn acc) as [e He]. congruence.
Qed.

Lemma stations_outcome_raises d l n :
  In n l ->
  (forall acc, exists e, station_outcome d n acc = inl e) ->
  forall acc, exists key, stations_outcome d l acc = inl (KeyError key).
Proof.
  intros Hin Hn. induction l as [| x l IH]; intros acc; [destruct Hin |].
  simpl. destruct (station_outcome d x acc) as [e | acc'] eqn:E.
  - destruct (station_outcome_KeyError _ _ _ _ E) as [key ->]. eauto.
  - destruct Hin as [-> | Hin]; [| now apply IH].
    destruct (Hn acc) as [e He]. congruence.
Qed.

Lemma search_first_inv name flt d p n :
  hd_error (search name flt d) = Some (p, n) ->
  first_in_document (fun m => matches_tag name flt m = true) d p n.
Proof.
  intros H. destruct (search_hd_In _ _ _ _ _ H) as (Hp & Hs & Hm).
  repeat split; try assumption.
  intros q m Hq Hsq Hmq.
  assert (Hin : In (q, m) (search name flt d)) by (apply search_In; auto).
  pose proof (search_sorted name flt d) as Hsorted.
  destruct (search name flt d) as [| x l]; [discriminate |].
  simpl in H. injection H as ->.
  destruct Hin as [E | Hin]; [left; congruence | right].
  inversion Hsorted as [| ? ? _ Hall]; subst.
  rewrite Forall_forall in Hall. apply (Hall _ Hin).
Qed.

Lemma first_in_document_iff (P Q : Node -> Prop) d p n :
  (forall m, P m <-> Q m) ->
  first_in_document P d p n -> first_in_document Q d p n.
Proof.
  intros HPQ (Hp & Hs & Hn & Hmin). repeat split; try assumption.
  - now apply HPQ.
  - intros q m Hq Hsq Hm. apply (Hmin q m Hq Hsq). now apply HPQ.
Qed.

Lemma search_nil_inv name flt d :
  search name flt d = [] ->
  forall p n, p <> [] -> subtree d p = Some n -> matches_tag name flt n <> true.
Proof.
  intros H p n Hp Hs Hm.
  assert (Hin : In (p, n) (search name flt d)) by (apply search_In; auto).
  now rewrite H in Hin.
Qed.

(** A search that some node passes has a first result. *)
Lemma search_some name flt d p n :
  p <> [] -> subtree d p = Some n -> matches_tag name flt n = true ->
  exists q m, hd_error (search name flt d) = Some (q, m).
Proof.
  intros Hp Hs Hm.
  assert (Hin : In (p, n) (search name flt d)) by (apply search_In; auto).
  destruct (search name flt d) as [| [q m] l]; [destruct Hin |].
  exists q, m. reflexivity.
Qed.

Lemma slot_of_In n sn : slot_of n sn -> In sn (map snd (search "slot" [] n)).
Proof.
  intros (p & Hp & Hs & Hn). apply in_map_iff. exists (p, sn).
  split; [reflexivity |]. apply search_In. repeat split; try assumption.
  now apply matches_tag_name.
Qed.

(** C10, amended.  The record builder raises [KeyError], and returns no
    record list, whenever one of the instances it is given has no name
    attribute, or has a slot without a definingFeature attribute, or has a
    slot whose defining feature resolves to an owned attribute and whose
    first value element has no symbol attribute. *)
Theorem unguarded_access_raises w soup d insts nodes n :
  deref w soup = Some d ->
  Forall2 (fun r m => deref w r = Some m) insts nodes ->
  In n nodes ->
  lacks_name n \/ slot_lacks_feature n \/ resolved_value_lacks_symbol d n ->
  exists key w',
    print_station_details insts soup w = (inl (KeyError key), w').
Proof.
  intros Hd Hall Hin Hbad.
  assert (Hn : forall acc, exists e, station_outcome d n acc = inl e).
  { intros acc. unfold station_outcome.
    destruct (assoc "name" (node_attrs n)) as [nm |] eqn:Hnm; [| eauto].
    destruct Hbad as [Hbad | [(sn & Hslot & Hf) | Hbad]].
    - unfold lacks_name in Hbad. congruence.
    - destruct (slots_outcome_raises d _ sn (slot_of_In _ _ Hslot)) with (acc := @nil AttributeEntry)
        as [key ->]; [| eauto].
      intros a. unfold slot_outcome. rewrite Hf. eauto.
    - destruct Hbad as (sn & f & p & a & q & v & Hslot & Hf & Ha & Hv & Hsym).
      destruct (slots_outcome_raises d _ sn (slot_of_In _ _ Hslot)) with (acc := @nil AttributeEntry)
        as [key ->]; [| eauto].
      intros acc'. unfold slot_outcome. rewrite Hf.
      destruct Ha as (Hp & Hs & Hi & _).
      apply is_attribute_looked_up, matches_looked_up in Hi.
      destruct (search_some _ _ _ _ _ Hp Hs Hi) as (p' & a' & ->).
      destruct (assoc "name" (node_attrs a')); [| eauto].
      rewrite (search_first _ _ _ _ _ _ (matches_tag_name "value") Hv).
      rewrite Hsym. eauto. }
  pose proof (print_station_details_run _ _ _ _ _ Hd Hall) as Hrun.
  destruct (stations_outcome_raises d nodes n Hin Hn []) as [key Hkey].
  rewrite Hkey in Hrun.
  destruct (print_station_details insts soup w) as [r w'].
  simpl in Hrun. subst r. eauto.
Qed.

(** C2, amended.  A slot whose defining feature resolves to an owned
    attribute that has a name, and below which there is no value element
    at any depth, adds to the attribute list one entry with that name and
    the value "Aucune valeur"; and in every record list the builder
    returns, every attribute entry has an attribute_value string.  The
    defining feature resolves to the first ownedAttribute of the document
    that the lookup selects: the first that has the identifier as xmi:id
    or, when the identifier is the empty string and the release of the
    tree library is 4.12 or older, the first that has it as xmi:id or has
    no xmi:id. *)
Theorem missing_value_sentinel w soup d slot sn f p a nm :
  deref w soup = Some d ->
  deref w slot = Some sn ->
  assoc "definingFeature" (node_attrs sn) = Some f ->
  first_in_document (looked_up f) d p a ->
  assoc "name" (node_attrs a) = Some nm ->
  (forall q v, q <> [] -> subtree sn q = Some v -> ~ is_value v) ->
  (forall acc,
     resolve_slot soup acc slot w
     = (inr (acc ++ [mkEntry nm "Aucune valeur"]), w))
  /\ (forall insts soup' w0 details w1,
        print_station_details insts soup' w0 = (inr details, w1) ->
        forall st, In st details ->
          exists entries,
            py_get "attributes" (station_py st) = Some (PList entries)
            /\ length entries = length (attributes st)
            /\ Forall (fun e => exists v,
                         py_get "attribute_value" e = Some (PStr v)) entries).
Proof.
  intros Hd Hs Hf Ha Hnm Hnov. split.
  - intros acc. rewrite (resolve_slot_run _ _ _ _ _ _ Hd Hs).
    unfold slot_outcome. rewrite Hf.
    rewrite (search_first _ _ _ _ _ _ (matches_looked_up f) Ha), Hnm.
    now rewrite (search_none _ _ _ _ (matches_tag_name "value") Hnov).
  - intros insts soup' w0 details w1 _ st _.
    exists (map entry_py (attributes st)). repeat split.
    + apply length_map.
    + apply Forall_map, Forall_forall. intros e _. simpl. eauto.
Qed.

(** ** The pipeline *)

Lemma comprehension_ids_run w el n l :
  deref w el = Some n ->
  (forall pm, In pm l -> subtree n (fst pm) = Some (snd pm)) ->
  comprehension (fun a => getitem a "xmi:id")
    (map (fun pn => below el (fst pn)) l) w
  = (ids_outcome (map snd l), w).
Proof.
  intros Hd. induction l as [| [p m] l IH]; intros Hsub; simpl; [reflexivity |].
  rewrite bind_run, (getitem_run w _ m).
  2:{ rewrite (deref_below _ _ _ _ Hd). apply (Hsub (p, m)). simpl; auto. }
  destruct (assoc "xmi:id" (node_attrs m)); [| reflexivity].
  rewrite bind_run, IH by (intros; apply Hsub; simpl; auto).
  now destruct (ids_outcome (map snd l)).
Qed.

Lemma get_station_attributes_run w el n :
  deref w el = Some n ->
  get_station_attributes el w
  = (ids_outcome (map snd (search "ownedAttribute" [] n)), w).
Proof.
  intros Hd. unfold get_station_attributes.
  rewrite bind_run, (find_all_run _ _ _ _ _ Hd).
  apply (comprehension_ids_run w el n); [assumption |].
  intros [p m] Hin. now apply search_In in Hin.
Qed.

Lemma for_each_print_ids ids w :
  for_each ids tt (fun _ attr_id => print (msg_attribute_id attr_id)) w
  = (inr tt, say w (map msg_attribute_id ids)).
Proof.
  revert w. induction ids as [| a l IH]; intros w; simpl.
  - now rewrite say_nil.
  - rewrite bind_run. unfold print at 1. rewrite IH.
    f_equal. unfold say. simpl. now rewrite <- app_assoc.
Qed.

Lemma print_run line w : print line w = (inr tt, say w [line]).
Proof. reflexivity. Qed.

(** The run of [main] on a world whose input file holds a text that
    parses into [d], stage by stage. *)
Lemma main_run parser w content d :
  assoc file_path (files w) = Some content ->
  parser content = Some d ->
  let w1 := after_read w file_path d in
  main parser w =
  match hd_error (search "packagedElement"
                    [("xmi:type", MStr "uml:Class");
                     ("name", MList ["Station"])] d) with
  | None => (inr tt, say w1 [msg_no_class])
  | Some (p, n) =>
      match assoc "xmi:id" (node_attrs n) with
      | None => (inl (KeyError "xmi:id"), w1)
      | Some id =>
          if truthy id then
            match ids_outcome (map snd (search "ownedAttribute" [] n)) with
            | inl e => (inl e, say w1 [msg_class_id id])
            | inr [] => (inr tt, say w1 [msg_class_id id; msg_no_attribute])
            | inr (i :: ids) =>
                let w2 :=
                  after_read
                    (say w1 (msg_class_id id :: msg_attribute_ids
                             :: map msg_attribute_id (i :: ids)))
                    file_path d in
                let soup := mkRef (length (docs w1)) [] in
                match search "packagedElement"
                        [("xmi:type", MStr "uml:InstanceSpecification");
                         ("classifier", MStr id)] d with
                | [] => (inr tt, say w2 [msg_no_instance])
                | x :: l =>
                    bind (print_station_details
                            (map (fun pn => below soup (fst pn)) (x :: l)) soup)
                      (fun station_details =>
                         save_station_details_to_json station_details output_file)
                      w2
                end
            end
          else (inr tt, say w1 [msg_no_class])
      end
  end.
Proof.
  intros Hf Hp w1. unfold main.
  rewrite bind_run, (get_station_id_run parser w _ content d Hf Hp).
  fold (after_read w file_path d). fold w1.
  destruct (hd_error (search "packagedElement" _ d)) as [[p n] |] eqn:Hcls;
    [| reflexivity].
  destruct (assoc "xmi:id" (node_attrs n)) as [id |]; [| reflexivity].
  destruct (truthy id); unfold negb; [| reflexivity].
  rewrite bind_run, print_run.
  apply search_hd_In in Hcls as (_ & Hpn & _).
  assert (Hel : deref (say w1 [msg_class_id id])
                  (below (mkRef (length (docs w)) []) p) = Some n).
  { rewrite (deref_below _ _ d); [assumption | apply deref_fresh]. }
  rewrite bind_run, (get_station_attributes_run _ _ _ Hel).
  destruct (ids_outcome _) as [e | [| i ids]];
    [reflexivity | now rewrite print_run, say_say |].
  rewrite bind_run, print_run, bind_run, for_each_print_ids, !say_say.
  rewrite bind_run. unfold read_text at 1. simpl files. rewrite Hf.
  rewrite bind_run. unfold BeautifulSoup at 1. rewrite Hp.
  simpl docs. simpl files. simpl trace.
  match goal with
  | |- context [get_station_instances ?s _] => set (soup := s)
  end.
  match goal with
  | |- bind _ _ ?w' = _ => set (w2 := w')
  end.
  assert (Hsoup : deref w2 soup = Some d) by apply deref_fresh.
  rewrite bind_run. unfold get_station_instances.
  rewrite (find_all_run _ _ _ _ _ Hsoup).
  destruct (search "packagedElement" _ d) as [| x l]; reflexivity.
Qed.

Lemma stops_one_read w path d lines :
  stops_with (inr tt, say (after_read w path d) lines) w [d]
    (EvRead path :: map EvPrint lines).
Proof.
  unfold stops_with. simpl. repeat split; now rewrite <- ?app_assoc.
Qed.

Lemma stops_two_reads w path d lines1 lines2 :
  stops_with
    (inr tt, say (after_read (say (after_read w path d) lines1) path d) lines2)
    w [d; d]
    (EvRead path :: map EvPrint lines1 ++ EvRead path :: map EvPrint lines2).
Proof.
  unfold stops_with. simpl.
  repeat split; rewrite <- ?app_assoc; simpl; now rewrite <- ?app_assoc.
Qed.

(** C6. On an input file that parses into [d], the pipeline stops at the
    first stage that finds nothing, after one message and without writing:
    when [d] has no class named Station (or the class has an empty
    identifier) it reads the file once and prints the no-class message;
    when the class has no owned attribute it reads the file once, prints
    the identifier and the no-attribute message, and never parses the file
    for instance resolution; when no instance specification has the class
    as classifier it prints the no-instance message after its second read.
    In each case the files are those of the start and the events are the
    ones listed, none of them a write. *)
Theorem main_short_circuits parser w content d :
  assoc file_path (files w) = Some content ->
  parser content = Some d ->
  ((forall p n, p <> [] -> subtree d p = Some n -> ~ is_station_class n) ->
   stops_with (main parser w) w [d] [EvRead file_path; EvPrint msg_no_class])
  /\ (forall p n id,
        first_in_document is_station_class d p n ->
        assoc "xmi:id" (node_attrs n) = Some id ->
        (truthy id = false ->
         stops_with (main parser w) w [d]
           [EvRead file_path; EvPrint msg_no_class])
        /\ (truthy id = true ->
            (forall q m, q <> [] -> subtree n q = Some m ->
                         node_name m <> Some "ownedAttribute") ->
            stops_with (main parser w) w [d]
              [EvRead file_path; EvPrint (msg_class_id id);
               EvPrint msg_no_attribute])
        /\ (forall i ids,
              truthy id = true ->
              ids_outcome (map snd (search "ownedAttribute" [] n))
              = inr (i :: ids) ->
              (forall q m, q <> [] -> subtree d q = Some m ->
                           ~ is_instance_of id m) ->
              stops_with (main parser w) w [d; d]
                ([EvRead file_path; EvPrint (msg_class_id id);
                  EvPrint msg_attribute_ids]
                 ++ map EvPrint (map msg_attribute_id (i :: ids))
                 ++ [EvRead file_path; EvPrint msg_no_instance]))).
Proof.
  intros Hf Hp. pose proof (main_run parser w content d Hf Hp) as Hrun.
  cbv zeta in Hrun. split.
  - intros Hnone. rewrite Hrun.
    rewrite (search_none _ _ _ _ matches_station_class Hnone).
    apply (stops_one_read w file_path d [msg_no_class]).
  - intros p n id Hfirst Hid.
    rewrite (search_first _ _ _ _ _ _ matches_station_class Hfirst), Hid in Hrun.
    split; [| split].
    + intros Ht. rewrite Hrun, Ht.
      apply (stops_one_read w file_path d [msg_no_class]).
    + intros Ht Hnone. rewrite Hrun, Ht.
      rewrite (search_none _ _ _ _ (matches_tag_name "ownedAttribute") Hnone).
      apply (stops_one_read w file_path d [msg_class_id id; msg_no_attribute]).
    + intros i ids Ht Hids Hnone. rewrite Hrun, Ht, Hids.
      rewrite (search_none _ _ _ _ (matches_instance id (or_introl Ht)) Hnone).
      apply (stops_two_reads w file_path d
               (msg_class_id id :: msg_attribute_ids
                :: map msg_attribute_id (i :: ids))
               [msg_no_instance]).
Qed.

Lemma reads_app l1 l2 : reads (l1 ++ l2) = reads l1 ++ reads l2.
Proof.
  induction l1 as [| [p | s | p c] l1 IH]; simpl; [reflexivity | | |];
    now rewrite IH.
Qed.

Lemma reads_prints lines : reads (map EvPrint lines) = [].
Proof. induction lines; simpl; auto. Qed.

Lemma save_run details out w :
  save_station_details_to_json details out w =
  (inr tt,
   mkWorld ((out, Json.dumps (details_py details)) :: files w) (docs w)
     (trace w ++ [EvWrite out (Json.dumps (details_py details));
                  EvPrint (msg_saved out)])).
Proof.
  unfold save_station_details_to_json. rewrite bind_run. unfold write_text at 1.
  unfold print. simpl. now rewrite <- app_assoc.
Qed.

(** C8, amended.  On an input file that parses into [d], a run opens the
    file once for class location and, exactly when the class is found with
    a non-empty identifier and a non-empty attribute list, a second time,
    before instance resolution; each read is parsed into a document of its
    own, and no other read takes place. *)
Theorem main_reads parser w content d :
  assoc file_path (files w) = Some content ->
  parser content = Some d ->
  exists evs,
    trace (snd (main parser w)) = trace w ++ evs
    /\ reads evs = (if reaches_instances d then [file_path; file_path]
                    else [file_path])
    /\ docs (snd (main parser w))
       = docs w ++ (if reaches_instances d then [d; d] else [d]).
Proof.
  intros Hf Hp. rewrite (main_run parser w content d Hf Hp). cbv zeta.
  unfold reaches_instances.
  destruct (hd_error (search "packagedElement" _ d)) as [[p n] |].
  2:{ exists [EvRead file_path; EvPrint msg_no_class]. simpl.
      now rewrite <- app_assoc. }
  destruct (assoc "xmi:id" (node_attrs n)) as [id |].
  2:{ exists [EvRead file_path]. now simpl. }
  destruct (truthy id); simpl andb.
  2:{ exists [EvRead file_path; EvPrint msg_no_class]. simpl.
      now rewrite <- app_assoc. }
  destruct (ids_outcome _) as [e | [| i ids]].
  - exists [EvRead file_path; EvPrint (msg_class_id id)]. simpl.
    now rewrite <- app_assoc.
  - exists [EvRead file_path; EvPrint (msg_class_id id); EvPrint msg_no_attribute].
    simpl. now rewrite <- app_assoc.
  - set (lines := msg_class_id id :: msg_attribute_ids
                  :: map msg_attribute_id (i :: ids)).
    destruct (search "packagedElement" _ d) as [| x l].
    + exists (EvRead file_path :: map EvPrint lines
              ++ [EvRead file_path; EvPrint msg_no_instance]).
      repeat split.
      * simpl. rewrite <- ?app_assoc. simpl. now rewrite <- ?app_assoc.
      * simpl. now rewrite ?reads_app, ?reads_prints.
      * simpl. now rewrite <- app_assoc.
    + rewrite bind_run.
      match goal with
      | |- context [print_station_details ?a ?b ?c] =>
          destruct (talks_print_station_details a b c) as [out Hout];
          destruct (print_station_details a b c) as [[e | details] w3]
      end; simpl in Hout; subst w3.
      * exists (EvRead file_path :: map EvPrint lines
                ++ EvRead file_path :: map EvPrint out).
        repeat split.
        -- simpl. rewrite <- ?app_assoc. simpl. now rewrite <- ?app_assoc.
        -- simpl. rewrite ?reads_app. simpl. now rewrite ?reads_prints.
        -- simpl. now rewrite <- app_assoc.
      * rewrite save_run.
        exists (EvRead file_path :: map EvPrint lines
                ++ EvRead file_path :: map EvPrint out
                ++ [EvWrite output_file (Json.dumps (details_py details));
                    EvPrint (msg_saved output_file)]).
        repeat split.
        -- simpl. rewrite <- ?app_assoc. simpl. now rewrite <- ?app_assoc.
        -- simpl. rewrite ?reads_app. simpl. rewrite ?reads_app.
           now rewrite ?reads_prints.
        -- simpl. now rewrite <- app_assoc.
Qed.

(** ** The JSON text *)

Import Json.

Lemma pyval_nested_ind (P : pyval -> Prop) :
  P PNone -> (forall b, P (PBool b)) -> (forall s, P (PStr s)) ->
  (forall l, Forall P l -> P (PList l)) ->
  (forall d, Forall (fun kv => P (snd kv)) d -> P (PDict d)) ->
  forall v, P v.
Proof.
  intros Hn Hb Hs Hl Hd. fix IH 1. intros [| b | s | l | d].
  - exact Hn.
  - apply Hb.
  - apply Hs.
  - apply Hl. induction l as [| x l IHl]; constructor; [apply IH | exact IHl].
  - apply Hd. induction d as [| [k x] d IHd]; constructor; [apply IH | exact IHd].
Qed.

Lemma iterencode_list x xs level :
  iterencode (PList (x :: xs)) level =
  ("[" ++ newline_indent (S level) ++ iterencode x (S level)
   ++ encode_items level xs ++ newline_indent level ++ "]")%string.
Proof.
  cbn [iterencode]. do 3 f_equal. f_equal.
  induction xs as [| y ys IH]; [reflexivity |].
  cbn [encode_items]. now rewrite IH.
Qed.

Lemma iterencode_dict k v kvs level :
  iterencode (PDict ((k, v) :: kvs)) level =
  ("{" ++ newline_indent (S level)
   ++ encode_basestring k ++ ": " ++ iterencode v (S level)
   ++ encode_pairs level kvs ++ newline_indent level ++ "}")%string.
Proof.
  cbn [iterencode]. do 5 f_equal. f_equal.
  induction kvs as [| [k' v'] l IH]; [reflexivity |].
  cbn [encode_pairs]. now rewrite IH.
Qed.

Lemma size_list l :
  size (PList l) = S (fold_right (fun x n => S (size x + n)) 0 l).
Proof.
  reflexivity.
Qed.

Lemma size_dict d :
  size (PDict d) = S (fold_right (fun kv n => S (size (snd kv) + n)) 0 d).
Proof.
  cbn [size]. f_equal. induction d as [| [k x] d IH]; [reflexivity |].
  cbn [fold_right snd]. now rewrite IH.
Qed.

Lemma append_assoc (a b c : string) : ((a ++ b) ++ c = a ++ (b ++ c))%string.
Proof. induction a as [| x a IH]; simpl; [reflexivity | now rewrite IH]. Qed.

Lemma append_nil_r (a : string) : (a ++ EmptyString)%string = a.
Proof. induction a as [| x a IH]; simpl; [reflexivity | now rewrite IH]. Qed.

Lemma skip_ws_spaces n s : skip_ws (spaces n ++ s) = skip_ws s.
Proof. induction n as [| n IH]; simpl; [reflexivity | exact IH]. Qed.

Lemma skip_ws_newline_indent level s :
  skip_ws (newline_indent level ++ s) = skip_ws s.
Proof. unfold newline_indent. cbn [append]. cbn [skip_ws is_ws]. simpl. apply skip_ws_spaces. Qed.

Lemma scanstring_escape_char c r :
  scanstring (escape_char c ++ r) = prepend (String c EmptyString) (scanstring r).
Proof.
  destruct c as [[] [] [] [] [] [] [] []]; reflexivity.
Qed.

Lemma scanstring_escape s rest :
  scanstring (escape s ++ String dquote rest) = Some (s, rest).
Proof.
  induction s as [| c s IH]; cbn [escape].
  - reflexivity.
  - now rewrite append_assoc, scanstring_escape_char, IH.
Qed.

Lemma encode_basestring_app s rest :
  (encode_basestring s ++ rest)%string
  = String dquote (escape s ++ String dquote rest).
Proof. unfold encode_basestring. cbn [append]. now rewrite append_assoc. Qed.

Lemma iterencode_head v level :
  exists c s', iterencode v level = String c s'
               /\ is_ws c = false /\ Ascii.eqb c "]" = false.
Proof.
  destruct v as [| [] | s | [| x l] | [| [k x] d]];
    eexists _, _; (split; [reflexivity | split; reflexivity]).
Qed.

Lemma skip_ws_head c s : is_ws c = false -> skip_ws (String c s) = String c s.
Proof. intros H. cbn [skip_ws]. now rewrite H. Qed.

Lemma substring_all s : substring 0 (String.length s) s = s.
Proof. induction s as [| c s IH]; simpl; [reflexivity | now rewrite IH]. Qed.

Lemma dict_set_fresh d k v :
  ~ In k (map fst d) -> dict_set d k v = d ++ [(k, v)].
Proof.
  induction d as [| [k' v'] d IH]; intros Hk; simpl; [reflexivity |].
  destruct (String.eqb_spec k k') as [-> | Hne].
  - elim Hk. simpl. auto.
  - rewrite IH; [reflexivity |]. intros Hin. apply Hk. simpl. auto.
Qed.

Lemma dict_of_pairs_distinct pairs :
  NoDup (map fst pairs) -> dict_of_pairs pairs = pairs.
Proof.
  unfold dict_of_pairs.
  assert (H : forall acc, NoDup (map fst (acc ++ pairs)) ->
              fold_left (fun d kv => dict_set d (fst kv) (snd kv)) pairs acc
              = acc ++ pairs).
  { induction pairs as [| [k v] l IH]; intros acc Hnd; simpl.
    - now rewrite app_nil_r.
    - rewrite dict_set_fresh.
      + rewrite IH; rewrite <- app_assoc; [reflexivity | exact Hnd].
      + rewrite map_app in Hnd. simpl in Hnd.
        apply NoDup_remove_2 in Hnd. intros Hin. apply Hnd.
        apply in_or_app. now left. }
  intros Hnd. now apply (H []).
Qed.

Lemma skip_ws_iterencode v level r :
  skip_ws (iterencode v level ++ r) = (iterencode v level ++ r)%string.
Proof.
  destruct (iterencode_head v level) as (c & s' & E & Hws & _).
  rewrite E. cbn [append]. now apply skip_ws_head.
Qed.

Lemma JSONArray_items l :
  Forall (fun v => distinct_keys v -> forall fuel level rest,
            size v <= fuel ->
            scan_once fuel (iterencode v level ++ rest) = Some (v, rest)) l ->
  Forall distinct_keys l ->
  forall x,
    (forall fuel level rest,
       size x <= fuel ->
       scan_once fuel (iterencode x level ++ rest) = Some (x, rest)) ->
    forall fuel level rest,
      S (size x + fold_right (fun y n => S (size y + n)) 0 l) <= fuel ->
      JSONArray fuel
        (iterencode x (S level) ++ encode_items level l
         ++ newline_indent level ++ String "]" rest)
      = Some (x :: l, rest).
Proof.
  induction 1 as [| y l Hy Hl IH]; intros Hwf x Hx fuel level rest Hfuel;
    (destruct fuel as [| f]; [lia |]); cbn [JSONArray].
  - rewrite Hx by (simpl in Hfuel; lia).
    cbn [encode_items append]. rewrite skip_ws_newline_indent.
    reflexivity.
  - rewrite Hx by (simpl in Hfuel; lia).
    inversion Hwf as [| ? ? Hwy Hwl]; subst.
    cbn [encode_items append]. rewrite ?append_assoc.
    rewrite skip_ws_head by reflexivity.
    replace (Ascii.eqb "," "]") with false by reflexivity.
    replace (Ascii.eqb "," ",") with true by reflexivity.
    rewrite skip_ws_newline_indent, skip_ws_iterencode.
    rewrite (IH Hwl y (Hy Hwy) f level rest); [reflexivity |].
    simpl in Hfuel. lia.
Qed.

Lemma JSONObject_pairs d :
  Forall (fun kv => distinct_keys (snd kv) -> forall fuel level rest,
            size (snd kv) <= fuel ->
            scan_once fuel (iterencode (snd kv) level ++ rest)
            = Some (snd kv, rest)) d ->
  Forall (fun kv => distinct_keys (snd kv)) d ->
  forall k x,
    (forall fuel level rest,
       size x <= fuel ->
       scan_once fuel (iterencode x level ++ rest) = Some (x, rest)) ->
    forall fuel level rest,
      S (size x + fold_right (fun kv n => S (size (snd kv) + n)) 0 d) <= fuel ->
      JSONObject fuel
        (escape k ++ String dquote
           (": " ++ iterencode x (S level) ++ encode_pairs level d
            ++ newline_indent level ++ String "}" rest))
      = Some ((k, x) :: d, rest).
Proof.
  induction 1 as [| [k' y] d Hy Hd IH]; intros Hwf k x Hx fuel level rest Hfuel;
    (destruct fuel as [| f]; [lia |]); cbn [JSONObject];
    rewrite scanstring_escape; cbn [append];
    rewrite skip_ws_head by reflexivity;
    replace (Ascii.eqb ":" ":") with true by reflexivity;
    cbn [skip_ws]; replace (is_ws " ") with true by reflexivity;
    rewrite skip_ws_iterencode.
  - rewrite Hx by (simpl in Hfuel; lia).
    cbn [encode_pairs append]. rewrite skip_ws_newline_indent.
    reflexivity.
  - rewrite Hx by (simpl in Hfuel; lia).
    inversion Hwf as [| ? ? Hwy Hwl]; subst. simpl snd in *.
    cbn [encode_pairs append]. rewrite ?append_assoc.
    rewrite skip_ws_head by reflexivity.
    replace (Ascii.eqb "," "}") with false by reflexivity.
    replace (Ascii.eqb "," ",") with true by reflexivity.
    rewrite skip_ws_newline_indent, encode_basestring_app.
    rewrite skip_ws_head by reflexivity.
    replace (Ascii.eqb dquote dquote) with true by reflexivity.
    cbn [append]. rewrite ?append_assoc.
    pose proof (IH Hwl k' y (Hy Hwy) f level rest) as IH'.
    cbn [append] in IH'. rewrite IH'; [reflexivity |].
    simpl in Hfuel. lia.
Qed.

Lemma distinct_keys_list l : distinct_keys (PList l) <-> Forall distinct_keys l.
Proof.
  cbn [distinct_keys]. induction l as [| x l IH].
  - split; constructor.
  - split.
    + intros [Hx Hl]. constructor; [assumption | now apply IH].
    + intros H. inversion H; subst. split; [assumption | now apply IH].
Qed.

Lemma distinct_keys_dict d :
  distinct_keys (PDict d) <->
  NoDup (map fst d) /\ Forall (fun kv => distinct_keys (snd kv)) d.
Proof.
  cbn [distinct_keys].
  assert (H : (fix all (d0 : list (string * pyval)) : Prop :=
                 match d0 with
                 | [] => True
                 | (_, x) :: d' => distinct_keys x /\ all d'
                 end) d <-> Forall (fun kv => distinct_keys (snd kv)) d).
  { induction d as [| [k x] d IH].
    - split; constructor.
    - split.
      + intros [Hx Hl]. constructor; [assumption | now apply IH].
      + intros H. inversion H; subst. split; [assumption | now apply IH]. }
  now rewrite H.
Qed.

Lemma prefix_empty s : prefix EmptyString s = true.
Proof. now destruct s. Qed.

(** Scanning the text of a value gives the value back. *)
Lemma scan_once_iterencode v :
  distinct_keys v ->
  forall fuel level rest,
    size v <= fuel ->
    scan_once fuel (iterencode v level ++ rest) = Some (v, rest).
Proof.
  induction v as [| b | s | l IHl | d IHd] using pyval_nested_ind;
    intros Hwf fuel level rest Hfuel;
    (destruct fuel as [| f]; [simpl in Hfuel; lia |]).
  - cbn. now rewrite prefix_empty, Nat.sub_0_r, substring_all.
  - destruct b; cbn; now rewrite prefix_empty, Nat.sub_0_r, substring_all.
  - cbn [iterencode]. rewrite encode_basestring_app. cbn [scan_once].
    replace (Ascii.eqb dquote dquote) with true by reflexivity.
    now rewrite scanstring_escape.
  - apply distinct_keys_list in Hwf. destruct l as [| x l]; [reflexivity |].
    rewrite iterencode_list. cbn [append scan_once].
    replace (Ascii.eqb "[" dquote) with false by reflexivity.
    replace (Ascii.eqb "[" "{") with false by reflexivity.
    replace (Ascii.eqb "[" "[") with true by reflexivity.
    rewrite ?append_assoc, skip_ws_newline_indent, skip_ws_iterencode.
    inversion IHl as [| ? ? Hx Hl]; subst.
    inversion Hwf as [| ? ? Hwx Hwl]; subst.
    destruct (iterencode_head x (S level)) as (c & s' & E & Hws & Hc).
    rewrite E at 1. cbn [append]. rewrite Hc.
    change (String c (s' ++ ?r)%string) with (String c s' ++ r)%string.
    rewrite <- E. cbn [append].
    rewrite (JSONArray_items l Hl Hwl x (Hx Hwx) f level rest); [reflexivity |].
    rewrite size_list in Hfuel. simpl in Hfuel. lia.
  - apply distinct_keys_dict in Hwf as [Hnd Hwf].
    destruct d as [| [k x] d]; [reflexivity |].
    rewrite iterencode_dict. cbn [append scan_once].
    replace (Ascii.eqb "{" dquote) with false by reflexivity.
    replace (Ascii.eqb "{" "{") with true by reflexivity.
    rewrite ?append_assoc, skip_ws_newline_indent, encode_basestring_app.
    rewrite skip_ws_head by reflexivity.
    replace (Ascii.eqb dquote "}") with false by reflexivity.
    replace (Ascii.eqb dquote dquote) with true by reflexivity.
    inversion IHd as [| ? ? Hx Hd]; subst.
    inversion Hwf as [| ? ? Hwx Hwl]; subst. simpl snd in *.
    cbn [append]. rewrite ?append_assoc. cbn [append].
    pose proof (JSONObject_pairs d Hd Hwl k x (Hx Hwx) f level rest) as Hobj.
    cbn [append] in Hobj. rewrite Hobj.
    + now rewrite dict_of_pairs_distinct.
    + rewrite size_dict in Hfuel. simpl in Hfuel. lia.
Qed.

Lemma length_append (a b : string) :
  String.length (a ++ b) = String.length a + String.length b.
Proof. induction a as [| c a IH]; simpl; [reflexivity | now rewrite IH]. Qed.

Lemma length_newline_indent level : 1 <= String.length (newline_indent level).
Proof. unfold newline_indent. simpl. lia. Qed.

Lemma size_le_length v : forall level, size v <= String.length (iterencode v level).
Proof.
  induction v as [| b | s | l IHl | d IHd] using pyval_nested_ind; intros level.
  - simpl. lia.
  - destruct b; simpl; lia.
  - simpl. lia.
  - destruct l as [| x l]; [simpl; lia |].
    rewrite iterencode_list, size_list. inversion IHl as [| ? ? Hx Hl]; subst.
    assert (Hitems : fold_right (fun y n => S (size y + n)) 0 l
                     <= String.length (encode_items level l)).
    { clear Hx IHl. induction Hl as [| y l Hy Hl IH]; [simpl; lia |].
      cbn [fold_right encode_items]. rewrite !length_append.
      specialize (Hy (S level)). pose proof (length_newline_indent (S level)).
      simpl String.length at 1. lia. }
    rewrite !length_append. specialize (Hx (S level)).
    pose proof (length_newline_indent (S level)).
    cbn [fold_right]. simpl String.length at 1. lia.
  - destruct d as [| [k x] d]; [simpl; lia |].
    rewrite iterencode_dict, size_dict. inversion IHd as [| ? ? Hx Hd]; subst.
    simpl snd in *.
    assert (Hpairs : fold_right (fun kv n => S (size (snd kv) + n)) 0 d
                     <= String.length (encode_pairs level d)).
    { clear Hx IHd. induction Hd as [| [k' y] d Hy Hd IH]; [simpl; lia |].
      cbn [fold_right encode_pairs snd]. rewrite !length_append.
      specialize (Hy (S level)). simpl snd in Hy.
      pose proof (length_newline_indent (S level)).
      simpl String.length at 1. lia. }
    rewrite !length_append. specialize (Hx (S level)).
    pose proof (length_newline_indent (S level)).
    cbn [fold_right snd]. simpl String.length at 1. lia.
Qed.

(** Parsing the text written for a value gives the value back. *)
Lemma loads_dumps v : distinct_keys v -> loads (dumps v) = Some v.
Proof.
  intros Hwf. unfold loads, dumps.
  pose proof (skip_ws_iterencode v 0 EmptyString) as Hws. rewrite append_nil_r in Hws.
  rewrite Hws.
  pose proof (scan_once_iterencode v Hwf (S (String.length (iterencode v 0))) 0 EmptyString)
    as Hscan.
  rewrite append_nil_r in Hscan. rewrite Hscan; [reflexivity |].
  pose proof (size_le_length v 0). lia.
Qed.

Lemma distinct_keys_details details : distinct_keys (details_py details).
Proof.
  unfold details_py. apply distinct_keys_list, Forall_map, Forall_forall.
  intros st _. unfold station_py. apply distinct_keys_dict. split.
  - simpl. repeat constructor; simpl; intuition discriminate.
  - repeat constructor; simpl.
    apply (proj2 (distinct_keys_list _)), Forall_map, Forall_forall.
    intros e _. unfold entry_py. apply distinct_keys_dict. split.
    + simpl. repeat constructor; simpl; intuition discriminate.
    + repeat constructor.
Qed.

Lemma encode_items_concat {A : Type} (f : A -> pyval) (g : A -> string) level :
  (forall a, g a = (spaces (4 * S level) ++ iterencode (f a) (S level))%string) ->
  forall l x tail,
    (newline_indent (S level) ++ iterencode (f x) (S level)
     ++ encode_items level (map f l) ++ tail)%string
    = (LF ++ String.concat ("," ++ LF) (map g (x :: l)) ++ tail)%string.
Proof.
  intros Hg. induction l as [| y l IH]; intros x tail.
  - cbn [map encode_items String.concat]. rewrite Hg.
    unfold newline_indent, LF. cbn [append]. now rewrite ?append_assoc.
  - cbn [map encode_items]. cbn [map] in IH.
    change (String.concat ("," ++ LF) (g x :: g y :: map g l))
      with (g x ++ ("," ++ LF) ++ String.concat ("," ++ LF) (g y :: map g l))%string.
    rewrite ?append_assoc. rewrite IH. rewrite (Hg x).
    unfold newline_indent, LF. cbn [append]. now rewrite ?append_assoc.
Qed.

Lemma iterencode_entry e :
  ("            " ++ iterencode (entry_py e) 3)%string = pretty_entry e.
Proof.
  unfold entry_py, pretty_entry. rewrite iterencode_dict.
  cbn [encode_pairs iterencode]. unfold newline_indent, LF.
  cbn [spaces Nat.mul Nat.add append]. rewrite ?append_assoc. cbn [append].
  rewrite ?append_assoc. reflexivity.
Qed.

Lemma iterencode_entries l :
  iterencode (PList (map entry_py l)) 2 =
  match l with
  | [] => "[]"
  | _ :: _ =>
      ("[" ++ LF ++ String.concat ("," ++ LF) (map pretty_entry l) ++ LF
       ++ "        ]")%string
  end.
Proof.
  destruct l as [| e l]; [reflexivity |].
  cbn [map]. rewrite iterencode_list.
  rewrite (encode_items_concat entry_py pretty_entry 2).
  - unfold newline_indent, LF. cbn [spaces Nat.mul Nat.add append]. reflexivity.
  - intros a. symmetry. apply iterencode_entry.
Qed.

Lemma iterencode_station s :
  ("    " ++ iterencode (station_py s) 1)%string = pretty_station s.
Proof.
  unfold station_py, pretty_station. rewrite iterencode_dict.
  cbn [encode_pairs]. rewrite iterencode_entries.
  cbn [iterencode]. unfold newline_indent, LF.
  cbn [spaces Nat.mul Nat.add append]. rewrite ?append_assoc. cbn [append].
  rewrite ?append_assoc. reflexivity.
Qed.

(** The text written for a list of station records is the layout with
    four spaces per nesting level. *)
Lemma dumps_pretty station_details :
  dumps (details_py station_details) = pretty_details station_details.
Proof.
  unfold dumps, details_py, pretty_details.
  destruct station_details as [| s l]; [reflexivity |].
  cbn [map]. rewrite iterencode_list.
  rewrite (encode_items_concat station_py pretty_station 0).
  - unfold newline_indent, LF. cbn [spaces Nat.mul Nat.add append]. reflexivity.
  - intros a. symmetry. apply iterencode_station.
Qed.

(** A byte outside ASCII is written as itself. *)
Lemma escape_char_non_ascii c :
  128 <= nat_of_ascii c -> escape_char c = String c EmptyString.
Proof.
  destruct c as [[] [] [] [] [] [] [] []]; intros H;
    try reflexivity; vm_compute in H; lia.
Qed.

Lemma escape_app s1 s2 : escape (s1 ++ s2) = (escape s1 ++ escape s2)%string.
Proof.
  induction s1 as [| c s1 IH]; cbn [append escape]; [reflexivity |].
  now rewrite IH, append_assoc.
Qed.

(** C7. The text that [save_station_details_to_json] leaves in the output
    file parses back into the very records it was given; the text is the
    layout indented by four spaces per nesting level; and every byte
    outside ASCII of a name or a value is written as itself, not as an
    escape. *)
Theorem json_round_trip station_details out w :
  exists text,
    assoc out (files (snd (save_station_details_to_json station_details out w)))
    = Some text
    /\ Json.loads text = Some (details_py station_details)
    /\ text = pretty_details station_details
    /\ (forall c, 128 <= nat_of_ascii c -> Json.escape_char c = String c EmptyString)
    /\ (forall s1 c s2,
          128 <= nat_of_ascii c ->
          Json.escape (s1 ++ String c s2)
          = (Json.escape s1 ++ String c (Json.escape s2))%string).
Proof.
  exists (Json.dumps (details_py station_details)).
  rewrite save_run. cbn [snd files assoc]. rewrite String.eqb_refl.
  split; [reflexivity |].
  split; [apply loads_dumps, distinct_keys_details |].
  split; [apply dumps_pretty |].
  split; [apply escape_char_non_ascii |].
  intros s1 c s2 Hc. rewrite escape_app. cbn [escape].
  now rewrite (escape_char_non_ascii c Hc).
Qed.

(** ** More on record building *)

Lemma for_each_app {A S : Type} (body : S -> A -> M S) l1 l2 acc w :
  for_each (l1 ++ l2) acc body w =
  match for_each l1 acc body w with
  | (inl e, w1) => (inl e, w1)
  | (inr acc1, w1) => for_each l2 acc1 body w1
  end.
Proof.
  revert acc w. induction l1 as [| x l1 IH]; intros acc w; simpl.
  - reflexivity.
  - rewrite !bind_run. destruct (body acc x w) as [[e | acc'] w1].
    + reflexivity.
    + apply IH.
Qed.

(** What [resolve_slot] returns on a list [acc] is [acc] followed by what
    it returns on the empty list. *)
Lemma resolve_slot_acc soup acc slot w :
  fst (resolve_slot soup acc slot w) =
  match fst (resolve_slot soup [] slot w) with
  | inl e => inl e
  | inr l => inr (acc ++ l)
  end.
Proof.
  unfold resolve_slot. rewrite !bind_run.
  rewrite (quiet_run _ w (quiet_getitem slot "definingFeature")).
  destruct (fst (getitem slot "definingFeature" w)) as [e | f]; [reflexivity |].
  rewrite !bind_run.
  rewrite (quiet_run _ w (quiet_find soup "ownedAttribute" _)).
  destruct (fst (find soup "ownedAttribute" _ w)) as [e | [a |]];
    [reflexivity | | simpl; now rewrite app_nil_r].
  rewrite !bind_run. rewrite (quiet_run _ w (quiet_getitem a "name")).
  destruct (fst (getitem a "name" w)) as [e | nm]; [reflexivity |].
  rewrite !bind_run. rewrite (quiet_run _ w (quiet_find slot "value" [])).
  destruct (fst (find slot "value" [] w)) as [e | [v |]]; [reflexivity | |].
  - rewrite !bind_run. rewrite (quiet_run _ w (quiet_getitem v "symbol")).
    now destruct (fst (getitem v "symbol" w)).
  - reflexivity.
Qed.

(** What one slot adds to the attribute list: its entry, or nothing. *)
Lemma resolve_slot_at_most_one soup slot w l :
  fst (resolve_slot soup [] slot w) = inr l -> length l <= 1.
Proof.
  unfold resolve_slot. rewrite !bind_run.
  rewrite (quiet_run _ w (quiet_getitem slot "definingFeature")).
  destruct (fst (getitem slot "definingFeature" w)) as [e | f]; [discriminate |].
  rewrite !bind_run.
  rewrite (quiet_run _ w (quiet_find soup "ownedAttribute" _)).
  destruct (fst (find soup "ownedAttribute" _ w)) as [e | [a |]];
    [discriminate | | intros H; injection H as <-; simpl; lia].
  rewrite !bind_run. rewrite (quiet_run _ w (quiet_getitem a "name")).
  destruct (fst (getitem a "name" w)) as [e | nm]; [discriminate |].
  rewrite !bind_run. rewrite (quiet_run _ w (quiet_find slot "value" [])).
  destruct (fst (find slot "value" [] w)) as [e | [v |]]; [discriminate | |].
  - rewrite !bind_run. rewrite (quiet_run _ w (quiet_getitem v "symbol")).
    destruct (fst (getitem v "symbol" w)); [discriminate |].
    intros H; injection H as <-; simpl; lia.
  - intros H; injection H as <-; simpl; lia.
Qed.

(** X2. The attribute list that the loop over the slots leaves is the
    list it started from followed, in slot order, by what each slot adds
    on its own, which is one entry or none. *)
Theorem slot_order_preserved soup slots acc w attrs w' :
  for_each slots acc (resolve_slot soup) w = (inr attrs, w') ->
  attrs = acc ++ flat_map (fun slot =>
                   match fst (resolve_slot soup [] slot w) with
                   | inr l => l
                   | inl _ => []
                   end) slots
  /\ length attrs <= length acc + length slots
  /\ w' = w.
Proof.
  revert acc. induction slots as [| s slots IH]; intros acc H; simpl in *.
  - injection H as <- <-. rewrite app_nil_r. repeat split. simpl. lia.
  - rewrite bind_run in H.
    rewrite (quiet_run _ w (quiet_resolve_slot soup acc s)) in H.
    rewrite resolve_slot_acc in H.
    destruct (fst (resolve_slot soup [] s w)) as [e | l] eqn:E; [discriminate |].
    destruct (IH _ H) as (-> & Hlen & ->).
    pose proof (resolve_slot_at_most_one soup s w l E) as Hl.
    rewrite <- app_assoc. repeat split.
    rewrite !length_app in *. simpl. lia.
Qed.

(** X3. A slot whose defining feature resolves to an owned attribute named
    [nm], and whose first value element carries the symbol [s], adds the
    entry ([nm], [s]) to the attribute list.  The attribute is the first
    one in the whole document that the lookup of the identifier selects:
    the first that has the identifier as xmi:id or, when the identifier is
    the empty string and the release of the tree library is 4.12 or older,
    the first that has it as xmi:id or has no xmi:id. *)
Theorem resolved_slot_entry w soup d slot sn f p a nm q v s acc :
  deref w soup = Some d ->
  deref w slot = Some sn ->
  assoc "definingFeature" (node_attrs sn) = Some f ->
  first_in_document (looked_up f) d p a ->
  assoc "name" (node_attrs a) = Some nm ->
  first_in_document is_value sn q v ->
  assoc "symbol" (node_attrs v) = Some s ->
  resolve_slot soup acc slot w = (inr (acc ++ [mkEntry nm s]), w).
Proof.
  intros Hd Hs Hf Ha Hnm Hv Hsym.
  rewrite (resolve_slot_run _ _ _ _ _ _ Hd Hs). unfold slot_outcome.
  rewrite Hf, (search_first _ _ _ _ _ _ (matches_looked_up f) Ha), Hnm.
  now rewrite (search_first _ _ _ _ _ _ (matches_tag_name "value") Hv), Hsym.
Qed.

Lemma station_outcome_record d n details :
  station_outcome d n details =
  match station_record d n with
  | inl e => inl e
  | inr st => inr (details ++ [st])
  end.
Proof.
  unfold station_outcome, station_record.
  destruct (assoc "name" (node_attrs n)); [| reflexivity].
  now destruct (slots_outcome d _ []).
Qed.

(** The run of the loop body on one instance, with the world it leaves. *)
Lemma build_station_full w soup d inst n details :
  deref w soup = Some d ->
  deref w inst = Some n ->
  build_station soup details inst w =
  match station_record d n with
  | inl e => (inl e, w)
  | inr st => (inr (details ++ [st]), say w (station_lines st))
  end.
Proof.
  intros Hd Hn. unfold build_station, station_record.
  rewrite bind_run, (getitem_run _ _ _ _ Hn).
  destruct (assoc "name" (node_attrs n)) as [nm |]; [| reflexivity].
  rewrite bind_run, (find_all_run _ _ _ _ _ Hn).
  rewrite bind_run, (slots_loop_run _ _ d _ n); try assumption.
  2:{ intros [p m] Hin. now apply search_In in Hin. }
  destruct (slots_outcome d _ []) as [e | attrs]; [reflexivity |].
  cbv zeta. rewrite bind_run, print_run, bind_run, for_each_print_attr.
  now rewrite say_say.
Qed.

(** A failing loop body leaves the world as it found it: what can fail
    comes before the prints. *)
Lemma build_station_failure soup details inst w e :
  fst (build_station soup details inst w) = inl e ->
  build_station soup details inst w = (inl e, w).
Proof.
  unfold build_station. rewrite !bind_run.
  rewrite (quiet_run _ w (quiet_getitem inst "name")).
  destruct (fst (getitem inst "name" w)) as [e' | nm];
    [simpl; now intros [= ->] |].
  rewrite !bind_run, (quiet_run _ w (quiet_find_all inst "slot" [])).
  destruct (fst (find_all inst "slot" [] w)) as [e' | slots];
    [simpl; now intros [= ->] |].
  rewrite !bind_run.
  rewrite (quiet_run _ w (quiet_for_each slots _ (quiet_resolve_slot soup) [])).
  destruct (fst (for_each slots [] (resolve_slot soup) w)) as [e' | attrs];
    [simpl; now intros [= ->] |].
  cbv zeta. rewrite bind_run, print_run, bind_run, for_each_print_attr.
  discriminate.
Qed.

(** X5. When the instances before a failing one are built, the builder
    raises the exception of the failing one in the very world the earlier
    ones left: their lines are printed, nothing is printed for the failing
    instance, later instances are not visited and no record is
    returned. *)
Theorem failure_keeps_earlier_output soup before bad after w records wb e :
  print_station_details before soup w = (inr records, wb) ->
  fst (build_station soup records bad wb) = inl e ->
  print_station_details (before ++ bad :: after) soup w = (inl e, wb).
Proof.
  unfold print_station_details. intros Hb He.
  rewrite for_each_app, Hb. cbn [for_each]. rewrite bind_run.
  now rewrite (build_station_failure _ _ _ _ _ He).
Qed.

Lemma stations_loop_full w0 soup d insts nodes :
  deref w0 soup = Some d ->
  Forall2 (fun r n => deref w0 r = Some n) insts nodes ->
  forall acc w details w',
    docs w = docs w0 ->
    for_each insts acc (build_station soup) w = (inr details, w') ->
    exists records,
      details = acc ++ records
      /\ Forall2 (fun n st => station_record d n = inr st) nodes records
      /\ w' = say w (flat_map station_lines records).
Proof.
  intros Hd Hall.
  induction Hall as [| r n insts nodes Hr Hall IH]; intros acc w details w' Hw H;
    simpl in H.
  - injection H as <- <-. exists []. rewrite app_nil_r, say_nil.
    repeat split. constructor.
  - rewrite bind_run in H.
    rewrite (build_station_full w soup d r n acc) in H
      by (rewrite (deref_docs _ _ _ Hw); assumption).
    destruct (station_record d n) as [e | st] eqn:Est; [discriminate |].
    assert (Hw' : docs (say w (station_lines st)) = docs w0) by exact Hw.
    destruct (IH _ _ _ _ Hw' H) as (records & -> & Hrec & ->).
    exists (st :: records). rewrite <- app_assoc. simpl.
    rewrite say_say. repeat split. now constructor.
Qed.

(** X1. When the record builder returns, it returns one record per
    instance, in the order of the instances: the record's name is the
    name attribute of the instance and its attribute list is what the loop
    over the slots found below the instance leaves. *)
Theorem records_follow_instances w soup d insts nodes details w' :
  deref w soup = Some d ->
  Forall2 (fun r n => deref w r = Some n) insts nodes ->
  print_station_details insts soup w = (inr details, w') ->
  Forall2 (fun inst st =>
             getitem inst "name" w = (inr (station_name st), w)
             /\ exists slots,
                  find_all inst "slot" [] w = (inr slots, w)
                  /\ for_each slots [] (resolve_slot soup) w
                     = (inr (attributes st), w)) insts details.
Proof.
  intros Hd Hall H.
  destruct (stations_loop_full w soup d insts nodes Hd Hall [] w details w'
              eq_refl H) as (records & -> & Hrec & ->).
  simpl. clear H. revert records Hrec.
  induction Hall as [| r n insts nodes Hr Hall IH]; intros records Hrec;
    inversion Hrec as [| ? st ? recs Hst Hrest]; subst; constructor.
  - unfold station_record in Hst.
    destruct (assoc "name" (node_attrs n)) as [nm |] eqn:Hnm; [| discriminate].
    destruct (slots_outcome d _ []) as [e | attrs] eqn:Hattrs; [discriminate |].
    injection Hst as <-. simpl. split.
    + now rewrite (getitem_run _ _ _ _ Hr), Hnm.
    + eexists. split; [apply (find_all_run _ _ _ _ _ Hr) |].
      rewrite (slots_loop_run _ _ d _ n); try assumption.
      * now rewrite Hattrs.
      * intros [p m] Hin. now apply search_In in Hin.
  - now apply IH.
Qed.

(** X4. When the record builder returns, what it printed is exactly the
    lines of the records it returns, in order: for each record a blank
    line and the station line, then one line per attribute entry.  Files
    and parsed documents are as before. *)
Theorem printed_lines_match_records w soup d insts nodes details w' :
  deref w soup = Some d ->
  Forall2 (fun r n => deref w r = Some n) insts nodes ->
  print_station_details insts soup w = (inr details, w') ->
  w' = mkWorld (files w) (docs w)
         (trace w ++ map EvPrint (flat_map station_lines details)).
Proof.
  intros Hd Hall H.
  destruct (stations_loop_full w soup d insts nodes Hd Hall [] w details w'
              eq_refl H) as (records & -> & Hrec & ->).
  reflexivity.
Qed.

(** X6. An instance without any slot gives a record with its name and an
    empty attribute list, and one printed line. *)
Theorem instance_without_slots w soup d inst n nm details :
  deref w soup = Some d ->
  deref w inst = Some n ->
  assoc "name" (node_attrs n) = Some nm ->
  (forall p m, p <> [] -> subtree n p = Some m -> node_name m <> Some "slot") ->
  build_station soup details inst w
  = (inr (details ++ [mkStation nm []]),
     say w [(LF ++ "Station: " ++ nm)%string]).
Proof.
  intros Hd Hn Hnm Hnone.
  rewrite (build_station_full _ _ _ _ _ _ Hd Hn). unfold station_record.
  rewrite Hnm, (search_none _ _ _ _ (matches_tag_name "slot") Hnone).
  reflexivity.
Qed.

(** ** More on the pipeline *)

Lemma main_missing_file parser w :
  assoc file_path (files w) = None ->
  main parser w = (inl (FileNotFoundError file_path), w).
Proof.
  intros Hf. unfold main, get_station_id. rewrite !bind_run.
  unfold read_text at 1. now rewrite Hf.
Qed.

Lemma main_rejected parser w content :
  assoc file_path (files w) = Some content ->
  parser content = None ->
  main parser w
  = (inl ParserRejectedMarkup,
     mkWorld (files w) (docs w) (trace w ++ [EvRead file_path])).
Proof.
  intros Hf Hp. unfold main, get_station_id. rewrite !bind_run.
  unfold read_text at 1. rewrite Hf. rewrite bind_run.
  unfold BeautifulSoup at 1. now rewrite Hp.
Qed.

(** X10. Without the input file the pipeline raises [FileNotFoundError] and
    leaves the world untouched: nothing is printed, parsed or written.  On
    a text the parser rejects it raises after the one read, and again
    nothing is printed or written. *)
Theorem main_unreadable_input parser w :
  (assoc file_path (files w) = None ->
   main parser w = (inl (FileNotFoundError file_path), w))
  /\ (forall content,
        assoc file_path (files w) = Some content ->
        parser content = None ->
        main parser w
        = (inl ParserRejectedMarkup,
           mkWorld (files w) (docs w) (trace w ++ [EvRead file_path]))).
Proof.
  split; [apply main_missing_file | apply main_rejected].
Qed.

Lemma instances_live w soup d l :
  deref w soup = Some d ->
  (forall pm, In pm l -> subtree d (fst pm) = Some (snd pm)) ->
  Forall2 (fun r n => deref w r = Some n)
    (map (fun pn => below soup (fst pn)) l) (map snd l).
Proof.
  intros Hd. induction l as [| [p m] l IH]; intros Hsub; simpl; constructor.
  - rewrite (deref_below _ _ _ _ Hd). apply (Hsub (p, m)). simpl; auto.
  - apply IH. intros; apply Hsub; simpl; auto.
Qed.

(** The files a run leaves: those it found, or those and the output
    file, the run having ended normally. *)
Lemma main_files parser w :
  files (snd (main parser w)) = files w
  \/ (fst (main parser w) = inr tt
      /\ exists text,
           files (snd (main parser w)) = (output_file, text) :: files w).
Proof.
  destruct (assoc file_path (files w)) as [content |] eqn:Hf.
  2:{ left. now rewrite main_missing_file. }
  destruct (parser content) as [d |] eqn:Hp.
  2:{ left. now rewrite (main_rejected _ _ _ Hf Hp). }
  rewrite (main_run parser w content d Hf Hp). cbv zeta.
  destruct (hd_error (search "packagedElement" _ d)) as [[p n] |];
    [| now left].
  destruct (assoc "xmi:id" (node_attrs n)) as [id |]; [| now left].
  destruct (truthy id); [| now left].
  destruct (ids_outcome _) as [e | [| i ids]]; [now left | now left |].
  destruct (search "packagedElement" _ d) as [| x l]; [now left |].
  rewrite bind_run.
  match goal with
  | |- context [print_station_details ?a ?b ?c] =>
      destruct (talks_print_station_details a b c) as [out Hout];
      destruct (print_station_details a b c) as [[e | details] w3]
  end; simpl in Hout; subst w3.
  - now left.
  - right. rewrite save_run. split; [reflexivity |]. simpl. eauto.
Qed.


(** X9. A run changes no file but the output file: the input file, and
    any other, holds what it held. *)
Theorem main_touches_only_output_file parser w path :
  path <> output_file ->
  assoc path (files (snd (main parser w))) = assoc path (files w).
Proof.
  intros Hne. destruct (main_files parser w) as [-> | [_ [text ->]]].
  - reflexivity.
  - simpl. now destruct (String.eqb_spec path output_file).
Qed.

(** The complete run on a document with a class, attributes and
    instances whose records are all built. *)
Lemma main_success_run parser w content d p n id i ids x l details :
  assoc file_path (files w) = Some content ->
  parser content = Some d ->
  first_in_document is_station_class d p n ->
  assoc "xmi:id" (node_attrs n) = Some id ->
  truthy id = true ->
  ids_outcome (map snd (search "ownedAttribute" [] n)) = inr (i :: ids) ->
  search "packagedElement"
    [("xmi:type", MStr "uml:InstanceSpecification"); ("classifier", MStr id)] d
  = x :: l ->
  stations_outcome d (map snd (x :: l)) [] = inr details ->
  main parser w
  = (inr tt,
     mkWorld ((output_file, Json.dumps (details_py details)) :: files w)
       (docs w ++ [d; d])
       (trace w
        ++ EvRead file_path
           :: map EvPrint (msg_class_id id :: msg_attribute_ids
                           :: map msg_attribute_id (i :: ids))
        ++ EvRead file_path
           :: map EvPrint (flat_map station_lines details)
        ++ [EvWrite output_file (Json.dumps (details_py details));
            EvPrint (msg_saved output_file)])).
Proof.
  intros Hf Hp Hcls Hid Ht Hids Hinst Hrec.
  rewrite (main_run parser w content d Hf Hp). cbv zeta.
  rewrite (search_first _ _ _ _ _ _ matches_station_class Hcls), Hid, Ht, Hids.
  rewrite Hinst, bind_run.
  set (lines := msg_class_id id :: msg_attribute_ids
                :: map msg_attribute_id (i :: ids)).
  set (w2 := after_read (say (after_read w file_path d) lines) file_path d).
  set (soup := mkRef (length (docs (after_read w file_path d))) []).
  assert (Hsoup : deref w2 soup = Some d) by apply deref_fresh.
  assert (Hlive : Forall2 (fun r m => deref w2 r = Some m)
                    (map (fun pn => below soup (fst pn)) (x :: l))
                    (map snd (x :: l))).
  { apply (instances_live w2 soup d); [assumption |].
    intros [q m] Hin. rewrite <- Hinst in Hin. now apply search_In in Hin. }
  pose proof (print_station_details_run _ _ _ _ _ Hsoup Hlive) as Hfst.
  rewrite Hrec in Hfst.
  destruct (print_station_details _ soup w2) as [r w3] eqn:Hrun.
  simpl in Hfst. subst r.
  destruct (stations_loop_full w2 soup d _ _ Hsoup Hlive [] w2 details w3
              eq_refl Hrun) as (records & Hd' & _ & ->).
  simpl in Hd'. subst records.
  rewrite save_run. f_equal. unfold say, w2, after_read. simpl.
  f_equal; [now rewrite <- app_assoc |].
  rewrite <- ?app_assoc. simpl. now rewrite <- ?app_assoc.
Qed.

(** X7. On a document with a class named Station that has an identifier
    and attributes, and with instances whose records are all built, the
    pipeline ends normally: it reads and parses the file twice, prints the
    class identifier, the attribute identifiers and the lines of the
    records, writes the records to the output file and prints the closing
    message, in this order; the text written parses back into the
    records. *)
Theorem main_writes_records parser w content d p n id i ids x l details :
  assoc file_path (files w) = Some content ->
  parser content = Some d ->
  first_in_document is_station_class d p n ->
  assoc "xmi:id" (node_attrs n) = Some id ->
  truthy id = true ->
  ids_outcome (map snd (search "ownedAttribute" [] n)) = inr (i :: ids) ->
  search "packagedElement"
    [("xmi:type", MStr "uml:InstanceSpecification"); ("classifier", MStr id)] d
  = x :: l ->
  stations_outcome d (map snd (x :: l)) [] = inr details ->
  main parser w
  = (inr tt,
     mkWorld ((output_file, Json.dumps (details_py details)) :: files w)
       (docs w ++ [d; d])
       (trace w
        ++ EvRead file_path
           :: map EvPrint (msg_class_id id :: msg_attribute_ids
                           :: map msg_attribute_id (i :: ids))
        ++ EvRead file_path
           :: map EvPrint (flat_map station_lines details)
        ++ [EvWrite output_file (Json.dumps (details_py details));
            EvPrint (msg_saved output_file)]))
  /\ Json.loads (Json.dumps (details_py details)) = Some (details_py details)
  /\ length details = length (x :: l).
Proof.
  intros Hf Hp Hcls Hid Ht Hids Hinst Hrec. split; [| split].
  - now apply (main_success_run parser w content d p n id i ids x l details).
  - apply loads_dumps, distinct_keys_details.
  - clear - Hrec.
    assert (H : forall nodes acc out,
              stations_outcome d nodes acc = inr out ->
              length out = length acc + length nodes).
    { induction nodes as [| m nodes IH]; intros acc out H; simpl in H.
      - injection H as <-. simpl. lia.
      - rewrite station_outcome_record in H.
        destruct (station_record d m); [discriminate |].
        rewrite (IH _ _ H), length_app. simpl. lia. }
    rewrite (H _ _ _ Hrec), length_map. reflexivity.
Qed.

(** X11. Running the pipeline again on the world a successful run left
    ends normally too and leaves the same text in the output file: the
    first run changed nothing the second one reads. *)
Theorem main_rerun_same_output parser w content d p n id i ids x l details :
  assoc file_path (files w) = Some content ->
  parser content = Some d ->
  first_in_document is_station_class d p n ->
  assoc "xmi:id" (node_attrs n) = Some id ->
  truthy id = true ->
  ids_outcome (map snd (search "ownedAttribute" [] n)) = inr (i :: ids) ->
  search "packagedElement"
    [("xmi:type", MStr "uml:InstanceSpecification"); ("classifier", MStr id)] d
  = x :: l ->
  stations_outcome d (map snd (x :: l)) [] = inr details ->
  fst (main parser (snd (main parser w))) = inr tt
  /\ assoc output_file (files (snd (main parser (snd (main parser w)))))
     = Some (Json.dumps (details_py details))
  /\ assoc output_file (files (snd (main parser w)))
     = Some (Json.dumps (details_py details)).
Proof.
  intros Hf Hp Hcls Hid Ht Hids Hinst Hrec.
  rewrite (main_success_run parser w content d p n id i ids x l details)
    by assumption.
  cbn [snd].
  rewrite (main_success_run parser _ content d p n id i ids x l details)
    by assumption.
  repeat split.
Qed.

(** ** Reading a property off a computed search *)

(** The first match of a search, and the absence of a match, read off the
    computed search. *)
Lemma first_by_search name flt (P : Node -> Prop) d p n :
  (forall m, matches_tag name flt m = true <-> P m) ->
  hd_error (search name flt d) = Some (p, n) ->
  first_in_document P d p n.
Proof.
  intros HP H. apply (first_in_document_iff _ _ _ _ _ HP).
  now apply search_first_inv.
Qed.

Lemma none_by_search name flt (P : Node -> Prop) d :
  (forall m, matches_tag name flt m = true <-> P m) ->
  search name flt d = [] ->
  forall p n, p <> [] -> subtree d p = Some n -> ~ P n.
Proof.
  intros HP H p n Hp Hs Hn. apply HP in Hn.
  exact (search_nil_inv _ _ _ H p n Hp Hs Hn).
Qed.

End Library.

(** ** Checks on example documents *)

(** The instances of class C1 in the example model, with a release of the
    tree library up to 4.12. *)
Lemma get_station_instances_exact_witness :
  exists result,
    get_station_instances Legacy root "C1" (store model_doc)
    = (inr result, store model_doc)
    /\ (forall r, In r result <->
          exists p n, r = below root p /\ p <> []
                      /\ subtree model_doc p = Some n
                      /\ classified_by Legacy "C1" n)
    /\ StronglySorted ref_before result
    /\ (truthy "C1" = true \/ Legacy = Current ->
        forall r, In r result <->
          exists p n, r = below root p /\ p <> []
                      /\ subtree model_doc p = Some n
                      /\ is_instance_of "C1" n).
Proof.
  apply (get_station_instances_exact Legacy (store model_doc) root model_doc
           "C1").
  reflexivity.
Defined.

(** What the empty identifier selects in [unclassified_doc]: with a release
    up to 4.12 both instance specifications, from 4.13 on the first one
    only. *)
Example empty_identifier_instances :
  get_station_instances Legacy root EmptyString (store unclassified_doc)
  = (inr [mkRef 0 [0]; mkRef 0 [1]], store unclassified_doc)
  /\ get_station_instances Current root EmptyString (store unclassified_doc)
     = (inr [mkRef 0 [0]], store unclassified_doc).
Proof. split; reflexivity. Qed.

(** C4 as first stated fails with a release up to 4.12: for the empty
    identifier the result also holds the instance specification that has
    no classifier. *)
Lemma get_station_instances_exact_counterexample :
  ~ (forall w soup d I,
       deref w soup = Some d ->
       exists result,
         get_station_instances Legacy soup I w = (inr result, w)
         /\ (forall r, In r result <->
               exists p n, r = below soup p /\ p <> []
                           /\ subtree d p = Some n /\ is_instance_of I n)).
Proof.
  intros H.
  destruct (H (store unclassified_doc) root unclassified_doc EmptyString
              eq_refl) as (result & Hrun & Hmem).
  injection Hrun as <-.
  destruct (proj1 (Hmem (mkRef 0 [1]))) as (p & n & Hr & _ & Hs & _ & _ & Hc).
  - right. left. reflexivity.
  - injection Hr as <-. injection Hs as <-. discriminate Hc.
Qed.

(** The owned attributes of the example class, in document order. *)
Lemma owned_of_station_class p m :
  In (p, m) [([0], attribute_A1); ([1], attribute_A2)] <->
  p <> [] /\ subtree station_class p = Some m
  /\ node_name m = Some "ownedAttribute".
Proof.
  change [([0], attribute_A1); ([1], attribute_A2)]
    with (search Current "ownedAttribute" [] station_class).
  rewrite search_In, matches_tag_name. tauto.
Qed.

(** The two attribute identifiers of the example class. *)
Lemma get_station_attributes_ids_witness :
  exists ids,
    get_station_attributes Current (mkRef 0 [0; 0]) (store model_doc)
    = (inr ids, store model_doc)
    /\ length ids = 2
    /\ Forall2 (fun pm id => assoc "xmi:id" (node_attrs (snd pm)) = Some id)
         [([0], attribute_A1); ([1], attribute_A2)] ids.
Proof.
  apply (get_station_attributes_ids Current (store model_doc) (mkRef 0 [0; 0])
           station_class [([0], attribute_A1); ([1], attribute_A2)]).
  - reflexivity.
  - repeat constructor.
  - apply owned_of_station_class.
  - repeat constructor; discriminate.
Defined.

(** C5 as first stated fails, whatever the release: an ownedAttribute
    without xmi:id makes the enumeration raise instead of returning one
    identifier per tag. *)
Lemma get_station_attributes_ids_counterexample :
  ~ (exists release,
       forall w el n owned,
         deref w el = Some n ->
         StronglySorted entry_before owned ->
         (forall p m, In (p, m) owned <->
                      p <> [] /\ subtree n p = Some m
                      /\ node_name m = Some "ownedAttribute") ->
         exists ids,
           get_station_attributes release el w = (inr ids, w)
           /\ length ids = length owned).
Proof.
  intros [release H].
  destruct (H (store anonymous_doc) (mkRef 0 [0])
              (Tag "packagedElement"
                 [("xmi:type", "uml:Class"); ("name", "Station")]
                 [Tag "ownedAttribute" [("name", "Name")] []])
              [([0], Tag "ownedAttribute" [("name", "Name")] [])])
    as (ids & Hrun & _).
  - reflexivity.
  - repeat constructor.
  - intros p m.
    change [([0], Tag "ownedAttribute" [("name", "Name")] [])]
      with (search Current "ownedAttribute" []
              (Tag "packagedElement"
                 [("xmi:type", "uml:Class"); ("name", "Station")]
                 [Tag "ownedAttribute" [("name", "Name")] []])).
    rewrite search_In, matches_tag_name. tauto.
  - destruct release; discriminate Hrun.
Qed.

(** Class location on the example model. *)
Lemma get_station_id_first_witness :
  deref (after_read input_world file_path model_doc) (mkRef 0 [0; 0])
  = Some station_class
  /\ get_station_id Current (parser_of model_doc) file_path input_world
     = (inr (Some ("C1", mkRef 0 [0; 0])),
        after_read input_world file_path model_doc).
Proof.
  apply (get_station_id_first Current (parser_of model_doc) input_world
           file_path "<xmi/>" model_doc eq_refl eq_refl).
  apply (first_by_search Current _ _ _ _ _ _ (matches_station_class Current)).
  reflexivity.
Defined.

(** C3 as first stated fails, whatever the release: a class element
    without xmi:id is found, and the read of its identifier raises. *)
Lemma get_station_id_counterexample :
  ~ (exists release,
       forall parser w path content d p n,
         assoc path (files w) = Some content ->
         parser content = Some d ->
         first_in_document is_station_class d p n ->
         exists id w',
           get_station_id release parser path w
           = (inr (Some (id, below (mkRef (length (docs w)) []) p)), w')).
Proof.
  intros [release H].
  destruct (H (parser_of anonymous_doc) input_world file_path "<xmi/>"
              anonymous_doc [0]
              (Tag "packagedElement"
                 [("xmi:type", "uml:Class"); ("name", "Station")]
                 [Tag "ownedAttribute" [("name", "Name")] []]))
    as (id & w' & Hrun).
  - reflexivity.
  - reflexivity.
  - apply (first_by_search Current _ _ _ _ _ _ (matches_station_class Current)).
    reflexivity.
  - destruct release; discriminate Hrun.
Qed.

(** The first slot of the instance of [blank_feature_doc] has the empty
    string as defining feature; every owned attribute has an xmi:id, so
    the slot is skipped, also with a release up to 4.12. *)
Lemma dangling_slot_skipped_witness :
  (forall acc,
     resolve_slot Legacy root acc (mkRef 0 [1; 0]) (store blank_feature_doc)
     = (inr acc, store blank_feature_doc))
  /\ for_each ([] ++ mkRef 0 [1; 0] :: [mkRef 0 [1; 1]])
       [] (resolve_slot Legacy root) (store blank_feature_doc)
     = for_each ([] ++ [mkRef 0 [1; 1]])
         [] (resolve_slot Legacy root) (store blank_feature_doc)
  /\ fst (build_station Legacy root [] (mkRef 0 [1]) (store blank_feature_doc))
     = fst ((station_name <- getitem (mkRef 0 [1]) "name" ;;
             attributes <-
               for_each ([] ++ [mkRef 0 [1; 1]])
                 [] (resolve_slot Legacy root) ;;
             ret ([] ++ [mkStation station_name attributes]))
              (store blank_feature_doc)).
Proof.
  apply (dangling_slot_skipped Legacy (store blank_feature_doc) root
           blank_feature_doc (mkRef 0 [1])
           [] (mkRef 0 [1; 0]) [mkRef 0 [1; 1]]
           (Tag "slot" [("definingFeature", EmptyString)]
              [Tag "value" [("symbol", "v")] []])
           EmptyString []).
  - reflexivity.
  - reflexivity.
  - reflexivity.
  - reflexivity.
  - apply (none_by_search Legacy _ _ _ _ (matches_looked_up Legacy EmptyString)).
    reflexivity.
Defined.

(** The records of [blank_id_doc]: with a release up to 4.12 the slots
    whose defining feature is the empty string resolve to the owned
    attribute that has no xmi:id; from 4.13 on they are skipped. *)
Example empty_feature_entries :
  fst (print_station_details Legacy [mkRef 0 [1]] root (store blank_id_doc))
  = inr [mkStation "UPS1"
           [mkEntry "NoId" "v"; mkEntry "Name" "w";
            mkEntry "NoId" "Aucune valeur"]]
  /\ fst (print_station_details Current [mkRef 0 [1]] root (store blank_id_doc))
     = inr [mkStation "UPS1" [mkEntry "Name" "w"]].
Proof. split; reflexivity. Qed.

(** C1 as first stated fails with a release up to 4.12: no owned
    attribute of [blank_id_doc] has the empty string as xmi:id, and yet
    the slot whose defining feature is the empty string is not skipped. *)
Lemma dangling_slot_skipped_counterexample :
  ~ (forall w soup d slot sn f,
       deref w soup = Some d ->
       deref w slot = Some sn ->
       assoc "definingFeature" (node_attrs sn) = Some f ->
       (forall p a, p <> [] -> subtree d p = Some a ->
                    ~ is_attribute_with_id f a) ->
       forall acc, resolve_slot Legacy soup acc slot w = (inr acc, w)).
Proof.
  intros H.
  assert (Hrun : resolve_slot Legacy root [] (mkRef 0 [1; 0])
                    (store blank_id_doc)
                  = (inr [], store blank_id_doc)).
  { apply (H (store blank_id_doc) root blank_id_doc (mkRef 0 [1; 0])
             (Tag "slot" [("definingFeature", EmptyString)]
                [Tag "value" [("symbol", "v")] []])
             EmptyString).
    - reflexivity.
    - reflexivity.
    - reflexivity.
    - apply (none_by_search Current _ _ _ _
               (matches_attribute_with_id Current EmptyString
                  (or_intror eq_refl))).
      reflexivity. }
  discriminate Hrun.
Qed.

(** The third slot of the instance of [blank_id_doc] has no value; with a
    release up to 4.12 its empty defining feature resolves to the owned
    attribute that has no xmi:id. *)
Lemma missing_value_sentinel_witness :
  resolve_slot Legacy root [mkEntry "NoId" "v"; mkEntry "Name" "w"]
    (mkRef 0 [1; 2]) (store blank_id_doc)
  = (inr ([mkEntry "NoId" "v"; mkEntry "Name" "w"]
          ++ [mkEntry "NoId" "Aucune valeur"]),
     store blank_id_doc).
Proof.
  apply (missing_value_sentinel Legacy (store blank_id_doc) root blank_id_doc
           (mkRef 0 [1; 2]) (Tag "slot" [("definingFeature", EmptyString)] [])
           EmptyString [0; 0] (Tag "ownedAttribute" [("name", "NoId")] [])
           "NoId").
  - reflexivity.
  - reflexivity.
  - reflexivity.
  - apply (first_by_search Legacy _ _ _ _ _ _
             (matches_looked_up Legacy EmptyString)).
    reflexivity.
  - reflexivity.
  - apply (none_by_search Legacy _ _ _ _ (matches_tag_name Legacy "value")).
    reflexivity.
Defined.

(** The same on the example model, from release 4.13 on: the third slot of
    the example instance has no value. *)
Example sentinel_on_model :
  resolve_slot Current root [mkEntry "Name" "North Gate"] (mkRef 0 [0; 1; 2])
    (store model_doc)
  = (inr [mkEntry "Name" "North Gate"; mkEntry "Zone" "Aucune valeur"],
     store model_doc).
Proof. reflexivity. Qed.

(** C2 as first stated fails, whatever the release: the slot resolves to
    an attribute that has no name, and no entry is produced. *)
Lemma missing_value_sentinel_counterexample :
  ~ (exists release,
       forall w soup d slot sn f p a,
         deref w soup = Some d ->
         deref w slot = Some sn ->
         assoc "definingFeature" (node_attrs sn) = Some f ->
         first_in_document (is_attribute_with_id f) d p a ->
         (forall c, In c (node_contents sn) -> ~ is_value c) ->
         exists nm,
           resolve_slot release soup [] slot w
           = (inr [mkEntry nm "Aucune valeur"], w)).
Proof.
  intros [release H].
  destruct (H (store unnamed_doc) root unnamed_doc (mkRef 0 [1; 0])
              (Tag "slot" [("definingFeature", "A1")] []) "A1" [0; 0]
              (Tag "ownedAttribute" [("xmi:id", "A1")] []))
    as (nm & Hrun).
  - reflexivity.
  - reflexivity.
  - reflexivity.
  - apply (first_by_search Current _ _ _ _ _ _
             (matches_attribute_with_id Current "A1" (or_introl eq_refl))).
    reflexivity.
  - intros c [].
  - destruct release; discriminate Hrun.
Qed.

(** A value element that is not a child of the slot is read all the same:
    the search goes through all the descendants of the slot. *)
Lemma nested_value_is_read release :
  (forall c,
     In c (node_contents (Tag "slot" [("definingFeature", "A1")]
                            [Tag "extension" []
                               [Tag "value" [("symbol", "deep")] []]])) ->
     ~ is_value c)
  /\ resolve_slot release root [] (mkRef 0 [1; 0]) (store nested_doc)
     = (inr [mkEntry "Name" "deep"], store nested_doc).
Proof.
  split; [| destruct release; reflexivity].
  intros c [<- | []]. discriminate.
Qed.

(** A resolved slot whose value has no symbol makes the builder raise. *)
Lemma unguarded_access_raises_witness :
  exists key w',
    print_station_details Current [mkRef 0 [1]] root (store symbolless_doc)
    = (inl (KeyError key), w').
Proof.
  apply (unguarded_access_raises Current (store symbolless_doc) root
           symbolless_doc
           [mkRef 0 [1]]
           [Tag "packagedElement"
              [("xmi:type", "uml:InstanceSpecification"); ("name", "UPS1");
               ("classifier", "C1")]
              [Tag "slot" [("definingFeature", "A1")] [Tag "value" [] []]]]
           (Tag "packagedElement"
              [("xmi:type", "uml:InstanceSpecification"); ("name", "UPS1");
               ("classifier", "C1")]
              [Tag "slot" [("definingFeature", "A1")] [Tag "value" [] []]])).
  - reflexivity.
  - repeat constructor.
  - simpl. auto.
  - right. right.
    exists (Tag "slot" [("definingFeature", "A1")] [Tag "value" [] []]),
      "A1", [0; 0], attribute_A1, [0], (Tag "value" [] []).
    split; [| split; [| split; [| split]]].
    + exists [0]. repeat split. discriminate.
    + reflexivity.
    + apply (first_by_search Current _ _ _ _ _ _
               (matches_attribute_with_id Current "A1" (or_introl eq_refl))).
      reflexivity.
    + apply (first_by_search Current _ _ _ _ _ _
               (matches_tag_name Current "value")).
      reflexivity.
    + reflexivity.
Defined.

(** C10 as first stated fails, whatever the release: the value of a slot
    that resolves to no attribute is never read, so its missing symbol
    raises nothing. *)
Lemma unguarded_access_counterexample :
  ~ (exists release,
       forall w soup d insts nodes n sn q v,
         deref w soup = Some d ->
         Forall2 (fun r m => deref w r = Some m) insts nodes ->
         In n nodes ->
         slot_of n sn ->
         first_in_document is_value sn q v ->
         assoc "symbol" (node_attrs v) = None ->
         exists e w',
           print_station_details release insts soup w = (inl e, w')).
Proof.
  intros [release H].
  destruct (H (store model_doc) root model_doc [mkRef 0 [0; 1]]
              [instance_UPS1] instance_UPS1 slot_dangling [0] (Tag "value" [] []))
    as (e & w' & Hrun).
  - reflexivity.
  - repeat constructor.
  - simpl. auto.
  - exists [1]. repeat split. discriminate.
  - apply (first_by_search Current _ _ _ _ _ _
             (matches_tag_name Current "value")).
    reflexivity.
  - reflexivity.
  - destruct release; discriminate Hrun.
Qed.

(** A run on a document without class. *)
Lemma main_short_circuits_witness :
  stops_with (main Current (parser_of empty_doc) input_world) input_world
    [empty_doc] [EvRead file_path; EvPrint msg_no_class].
Proof.
  apply (main_short_circuits Current (parser_of empty_doc) input_world "<xmi/>"
           empty_doc eq_refl eq_refl).
  apply (none_by_search Current _ _ _ _ (matches_station_class Current)).
  reflexivity.
Defined.

(** The reads of a run on the example model. *)
Lemma main_reads_witness :
  exists evs,
    trace (snd (main Current (parser_of model_doc) input_world))
    = trace input_world ++ evs
    /\ reads evs = (if reaches_instances Current model_doc
                    then [file_path; file_path] else [file_path])
    /\ docs (snd (main Current (parser_of model_doc) input_world))
       = docs input_world
         ++ (if reaches_instances Current model_doc then [model_doc; model_doc]
             else [model_doc]).
Proof.
  apply (main_reads Current (parser_of model_doc) input_world "<xmi/>"
           model_doc eq_refl eq_refl).
Defined.

(** C8 as first stated fails, whatever the release: on the example model
    the file is read and parsed twice. *)
Lemma main_reads_counterexample :
  ~ (exists release,
       forall parser w content d,
         assoc file_path (files w) = Some content ->
         parser content = Some d ->
         exists evs,
           trace (snd (main release parser w)) = trace w ++ evs
           /\ reads evs = [file_path]
           /\ docs (snd (main release parser w)) = docs w ++ [d]).
Proof.
  intros [release H].
  destruct (H (parser_of model_doc) input_world "<xmi/>" model_doc
              eq_refl eq_refl) as (evs & _ & _ & Hdocs).
  destruct release; vm_compute in Hdocs; discriminate Hdocs.
Qed.

Example scenario_output release :
  match assoc output_file
          (files (snd (main release (parser_of scenario_doc) input_world))) with
  | Some text => Json.loads text
  | None => None
  end
  = Some (details_py [mkStation "UPS1" [mkEntry "Name" "North Gate"]]).
Proof. destruct release; vm_compute; reflexivity. Qed.

(** ** Checks of the further properties on the example documents *)

(** The record of the example instance. *)
Lemma records_follow_instances_witness :
  Forall2 (fun inst st =>
             getitem inst "name" (store model_doc)
             = (inr (station_name st), store model_doc)
             /\ exists slots,
                  find_all Current inst "slot" [] (store model_doc)
                  = (inr slots, store model_doc)
                  /\ for_each slots [] (resolve_slot Current root)
                       (store model_doc)
                     = (inr (attributes st), store model_doc))
    [mkRef 0 [0; 1]]
    [mkStation "UPS1"
       [mkEntry "Name" "North Gate"; mkEntry "Zone" "Aucune valeur"]].
Proof.
  apply (records_follow_instances Current (store model_doc) root model_doc
           [mkRef 0 [0; 1]] [instance_UPS1] _
           (say (store model_doc)
              (station_lines
                 (mkStation "UPS1"
                    [mkEntry "Name" "North Gate";
                     mkEntry "Zone" "Aucune valeur"])))).
  - reflexivity.
  - repeat constructor.
  - reflexivity.
Defined.

(** The three slots of the example instance leave two entries. *)
Lemma slot_order_preserved_witness :
  [mkEntry "Name" "North Gate"; mkEntry "Zone" "Aucune valeur"]
  = [] ++ flat_map (fun slot =>
             match fst (resolve_slot Current root [] slot (store model_doc)) with
             | inr l => l
             | inl _ => []
             end) [mkRef 0 [0; 1; 0]; mkRef 0 [0; 1; 1]; mkRef 0 [0; 1; 2]]
  /\ length [mkEntry "Name" "North Gate"; mkEntry "Zone" "Aucune valeur"]
     <= length (@nil AttributeEntry) + 3
  /\ store model_doc = store model_doc.
Proof.
  apply (slot_order_preserved Current root
           [mkRef 0 [0; 1; 0]; mkRef 0 [0; 1; 1]; mkRef 0 [0; 1; 2]] []
           (store model_doc)).
  reflexivity.
Defined.

(** The first slot of the instance of [blank_id_doc]: with a release up to
    4.12 its empty defining feature resolves to the owned attribute that
    has no xmi:id, the first one that the lookup selects. *)
Lemma resolved_slot_entry_witness :
  resolve_slot Legacy root [] (mkRef 0 [1; 0]) (store blank_id_doc)
  = (inr ([] ++ [mkEntry "NoId" "v"]), store blank_id_doc).
Proof.
  apply (resolved_slot_entry Legacy (store blank_id_doc) root blank_id_doc
           (mkRef 0 [1; 0])
           (Tag "slot" [("definingFeature", EmptyString)]
              [Tag "value" [("symbol", "v")] []])
           EmptyString [0; 0] (Tag "ownedAttribute" [("name", "NoId")] [])
           "NoId" [0] (Tag "value" [("symbol", "v")] []) "v").
  - reflexivity.
  - reflexivity.
  - reflexivity.
  - apply (first_by_search Legacy _ _ _ _ _ _
             (matches_looked_up Legacy EmptyString)).
    reflexivity.
  - reflexivity.
  - apply (first_by_search Legacy _ _ _ _ _ _
             (matches_tag_name Legacy "value")).
    reflexivity.
  - reflexivity.
Defined.

(** The first slot of the example instance, whatever the release. *)
Example resolved_slot_on_model release :
  resolve_slot release root [] (mkRef 0 [0; 1; 0]) (store model_doc)
  = (inr [mkEntry "Name" "North Gate"], store model_doc).
Proof. destruct release; reflexivity. Qed.

(** The lines printed for the example instance. *)
Lemma printed_lines_match_records_witness :
  snd (print_station_details Current [mkRef 0 [0; 1]] root (store model_doc))
  = mkWorld (files (store model_doc)) (docs (store model_doc))
      (trace (store model_doc)
       ++ map EvPrint
            (flat_map station_lines
               [mkStation "UPS1"
                  [mkEntry "Name" "North Gate";
                   mkEntry "Zone" "Aucune valeur"]])).
Proof.
  apply (printed_lines_match_records Current (store model_doc) root model_doc
           [mkRef 0 [0; 1]] [instance_UPS1]).
  - reflexivity.
  - repeat constructor.
  - reflexivity.
Defined.

(** The second instance of [mixed_doc] has no name: the lines of the first
    are printed, and the builder raises. *)
Lemma failure_keeps_earlier_output_witness :
  print_station_details Current ([mkRef 0 [1]] ++ mkRef 0 [2] :: []) root
    (store mixed_doc)
  = (inl (KeyError "name"),
     say (store mixed_doc)
       (station_lines (mkStation "UPS1" [mkEntry "Name" "North Gate"]))).
Proof.
  apply (failure_keeps_earlier_output Current root [mkRef 0 [1]] (mkRef 0 [2])
           [] (store mixed_doc)
           [mkStation "UPS1" [mkEntry "Name" "North Gate"]]).
  - reflexivity.
  - reflexivity.
Defined.

(** The second instance of the example model has no slot. *)
Lemma instance_without_slots_witness :
  build_station Current root [] (mkRef 0 [0; 2]) (store model_doc)
  = (inr ([] ++ [mkStation "Depot" []]),
     say (store model_doc) [(LF ++ "Station: " ++ "Depot")%string]).
Proof.
  apply (instance_without_slots Current (store model_doc) root model_doc
           (mkRef 0 [0; 2]) instance_other "Depot" []).
  - reflexivity.
  - reflexivity.
  - reflexivity.
  - intros p m Hp Hs Hn. apply (matches_tag_name Current) in Hn.
    exact (search_nil_inv Current "slot" [] instance_other eq_refl p m Hp Hs Hn).
Defined.


(** The input file after a run that wrote the output file. *)
Lemma main_touches_only_output_file_witness :
  assoc file_path (files (snd (main Current (parser_of model_doc) input_world)))
  = assoc file_path (files input_world).
Proof.
  apply (main_touches_only_output_file Current (parser_of model_doc)
           input_world file_path).
  discriminate.
Defined.

(** The run on the example model. *)
Lemma main_writes_records_witness :
  main Current (parser_of model_doc) input_world
  = (inr tt,
     mkWorld
       ((output_file,
         Json.dumps
           (details_py
              [mkStation "UPS1"
                 [mkEntry "Name" "North Gate";
                  mkEntry "Zone" "Aucune valeur"]]))
        :: files input_world)
       (docs input_world ++ [model_doc; model_doc])
       (trace input_world
        ++ EvRead file_path
           :: map EvPrint (msg_class_id "C1" :: msg_attribute_ids
                           :: map msg_attribute_id ("A1" :: ["A2"]))
        ++ EvRead file_path
           :: map EvPrint
                (flat_map station_lines
                   [mkStation "UPS1"
                      [mkEntry "Name" "North Gate";
                       mkEntry "Zone" "Aucune valeur"]])
        ++ [EvWrite output_file
              (Json.dumps
                 (details_py
                    [mkStation "UPS1"
                       [mkEntry "Name" "North Gate";
                        mkEntry "Zone" "Aucune valeur"]]));
            EvPrint (msg_saved output_file)])).
Proof.
  apply (main_writes_records Current (parser_of model_doc) input_world "<xmi/>"
           model_doc [0; 0] station_class "C1" "A1" ["A2"]
           ([0; 1], instance_UPS1) []
           [mkStation "UPS1"
              [mkEntry "Name" "North Gate"; mkEntry "Zone" "Aucune valeur"]]).
  - reflexivity.
  - reflexivity.
  - apply (first_by_search Current _ _ _ _ _ _ (matches_station_class Current)).
    reflexivity.
  - reflexivity.
  - reflexivity.
  - reflexivity.
  - reflexivity.
  - reflexivity.
Defined.

(** Two runs in a row on the example model. *)
Lemma main_rerun_same_output_witness :
  fst (main Current (parser_of model_doc)
         (snd (main Current (parser_of model_doc) input_world))) = inr tt
  /\ assoc output_file
       (files (snd (main Current (parser_of model_doc)
                      (snd (main Current (parser_of model_doc) input_world)))))
     = Some (Json.dumps
               (details_py
                  [mkStation "UPS1"
                     [mkEntry "Name" "North Gate";
                      mkEntry "Zone" "Aucune valeur"]]))
  /\ assoc output_file
       (files (snd (main Current (parser_of model_doc) input_world)))
     = Some (Json.dumps
               (details_py
                  [mkStation "UPS1"
                     [mkEntry "Name" "North Gate";
                      mkEntry "Zone" "Aucune valeur"]])).
Proof.
  apply (main_rerun_same_output Current (parser_of model_doc) input_world
           "<xmi/>" model_doc [0; 0] station_class "C1" "A1" ["A2"]
           ([0; 1], instance_UPS1) []
           [mkStation "UPS1"
              [mkEntry "Name" "North Gate"; mkEntry "Zone" "Aucune valeur"]]).
  - reflexivity.
  - reflexivity.
  - apply (first_by_search Current _ _ _ _ _ _ (matches_station_class Current)).
    reflexivity.
  - reflexivity.
  - reflexivity.
  - reflexivity.
  - reflexivity.
  - reflexivity.
Defined.
